(** * Etymology import scripts of the word-by-word database

    A shallow embedding of the three scripts under [scripts/]:
    - [import_roots_from_morphology.py]  (module [ImportRoots]),
    - [populate_etymology.py]            (module [PopulateEtymology]),
    - [populate_root_meanings.py]        (module [PopulateRootMeanings]),
    followed by the properties proved about them.

    Python [str] values whose characters the code inspects are lists of
    Unicode code points; an uncaught exception is a [Raise] result, and
    leaves the database file as its last commit wrote it; the SQLite
    tables are lists of rows in rowid order, and a statement binds its
    parameters before it is executed.  Text written by [print] is left
    out of the model. *)

From Stdlib Require Import List ZArith NArith Bool Lia String Ascii QArith.
Import ListNotations.

(** ** Python values shared by the scripts *)

Module Py.

(** A character is its code point, a [str] the list of its characters. *)
Definition char := N.
Definition str := list char.

(** [None | str], also the content of a nullable TEXT column. *)
Definition optstr := option str.

Inductive exn :=
| ValueError
| ZeroDivisionError
| EOFError
| KeyError
| OverflowError
| UnicodeEncodeError.

Inductive result (A : Type) :=
| Ok (a : A)
| Raise (e : exn).
Arguments Ok {A} a.
Arguments Raise {A} e.

Definition bind {A B} (r : result A) (k : A -> result B) : result B :=
  match r with
  | Ok a => k a
  | Raise e => Raise e
  end.

(** [for x in l: s = body s x], stopping at the first exception. *)
Fixpoint for_each {A S} (body : S -> A -> result S) (l : list A) (s : S)
  : result S :=
  match l with
  | [] => Ok s
  | x :: l' => bind (body s x) (for_each body l')
  end.

(** An ASCII literal as a [str]. *)
Fixpoint lit (s : string) : str :=
  match s with
  | EmptyString => []
  | String a s' => N_of_ascii a :: lit s'
  end.

Definition tab : char := 9%N.
Definition newline : char := 10%N.
Definition hash : char := 35%N.
Definition dash : char := 45%N.
Definition colon : char := 58%N.
Definition pipe : char := 124%N.

Fixpoint str_eqb (s t : str) : bool :=
  match s, t with
  | [], [] => true
  | c :: s', d :: t' => N.eqb c d && str_eqb s' t'
  | _, _ => false
  end.

(** [x == y] on [None | str] values. *)
Definition optstr_eqb (x y : optstr) : bool :=
  match x, y with
  | None, None => true
  | Some s, Some t => str_eqb s t
  | _, _ => false
  end.

(** Truth value of a [None | str]: [None] and [''] are false. *)
Definition truthy (x : optstr) : bool :=
  match x with
  | Some (_ :: _) => true
  | _ => false
  end.

(** [str.isspace] on one character: the white space of CPython's
    [_PyUnicode_IsWhitespace]. *)
Definition isspace (c : char) : bool :=
  ((9 <=? c) && (c <=? 13) || (28 <=? c) && (c <=? 32)
   || (c =? 0x85) || (c =? 0xA0) || (c =? 0x1680)
   || (0x2000 <=? c) && (c <=? 0x200A)
   || (c =? 0x2028) || (c =? 0x2029) || (c =? 0x202F)
   || (c =? 0x205F) || (c =? 0x3000))%N.

Fixpoint lstrip (s : str) : str :=
  match s with
  | [] => []
  | c :: s' => if isspace c then lstrip s' else s
  end.

Definition rstrip (s : str) : str := rev (lstrip (rev s)).

(** [s.strip()] *)
Definition strip (s : str) : str := rstrip (lstrip s).

(** [s.split(sep)] for a one-character separator: never an empty list. *)
Fixpoint split (sep : char) (s : str) : list str :=
  match s with
  | [] => [[]]
  | c :: s' =>
      if N.eqb c sep then [] :: split sep s'
      else match split sep s' with
           | [] => [[c]]
           | w :: ws => (c :: w) :: ws
           end
  end.

(** [s.startswith(p)], returning what follows the prefix. *)
Fixpoint strip_prefix (p s : str) : option str :=
  match p, s with
  | [], _ => Some s
  | a :: p', c :: s' => if N.eqb a c then strip_prefix p' s' else None
  | _ :: _, [] => None
  end.

Definition startswith (s p : str) : bool :=
  match strip_prefix p s with Some _ => true | None => false end.

(** [sep.join(parts)] *)
Fixpoint join (sep : str) (parts : list str) : str :=
  match parts with
  | [] => []
  | [p] => p
  | p :: ps => p ++ sep ++ join sep ps
  end.

(** The characters of a [str], as Python iterates over it. *)
Definition chars (s : str) : list str := map (fun c => [c]) s.

(** [str.lower] on one character.  Upper-case ASCII letters and the two
    other code points whose lower case contains an ASCII letter are
    mapped (KELVIN SIGN to [k], capital I with dot above to [i] followed
    by a combining dot); every other code point is kept, so that the
    comparison of a lowered text with an ASCII word is the one Python
    makes. *)
Definition lower_char (c : char) : str :=
  if ((65 <=? c) && (c <=? 90))%N then [(c + 32)%N]
  else if (c =? 0x212A)%N then [107%N]
  else if (c =? 0x130)%N then [105%N; 0x307%N]
  else [c].

(** [s.lower()] *)
Definition lower (s : str) : str := flat_map lower_char s.

(** [int(s)] on a text whose digits are ASCII digits.  White space
    around the number is passed over: the ASCII white space of C, and
    the white space beyond ASCII, which Python first turns into a
    blank (the separators U+001C to U+001F are not among them).  Then
    an optional sign and decimal digits, single underscores allowed
    between digits, and at most 4300 digits.  [None] is the ValueError.
    A decimal digit of another script, which Python would convert, is
    refused here: [int] is only applied to ASCII text below. *)
Definition int_space (c : char) : bool :=
  isspace c && negb ((28 <=? c) && (c <=? 31))%N.

Fixpoint int_lstrip (s : str) : str :=
  match s with
  | [] => []
  | c :: s' => if int_space c then int_lstrip s' else s
  end.

Definition digit (c : char) : option Z :=
  if ((48 <=? c) && (c <=? 57))%N then Some (Z.of_N c - 48)%Z else None.

Fixpoint digits (acc : Z) (after_digit : bool) (s : str) : option Z :=
  match s with
  | [] => if after_digit then Some acc else None
  | c :: s' =>
      match digit c with
      | Some d => digits (10 * acc + d)%Z true s'
      | None =>
          if N.eqb c 95 && after_digit
          then match s' with
               | [] => None
               | _ => digits acc false s'
               end
          else None
      end
  end.

Definition max_str_digits : nat := 4300.

Definition number (s : str) : option Z :=
  if (List.length (filter (fun c => match digit c with
                                    | Some _ => true
                                    | None => false
                                    end) s) <=? max_str_digits)%nat
  then digits 0 false s
  else None.

Definition int (s : str) : option Z :=
  match rev (int_lstrip (rev (int_lstrip s))) with
  | [] => None
  | c :: s' =>
      if N.eqb c 45 then option_map Z.opp (number s')
      else if N.eqb c 43 then number s'
      else number (c :: s')
  end.

End Py.

(** ** The [word_translations] table and the connection to it *)

Module Db.
Import Py.

(** A row of [word_translations]; the text columns are nullable. *)
Record word_translation := {
  id : Z;
  sura : Z;
  ayah : Z;
  word_position : Z;
  arabic_text : optstr;
  translation : optstr;
  transliteration : optstr;
  etymology : optstr
}.

(** The rows in ascending [id], the order in which SQLite scans them. *)
Definition table := list word_translation.

Definition set_etymology (v : optstr) (r : word_translation) :=
  {| id := id r; sura := sura r; ayah := ayah r;
     word_position := word_position r; arabic_text := arabic_text r;
     translation := translation r; transliteration := transliteration r;
     etymology := v |}.

(** SQL [column = ?]: true only for two equal non-NULL texts. *)
Definition sql_eq (x y : optstr) : bool :=
  match x, y with
  | Some s, Some t => str_eqb s t
  | _, _ => false
  end.

(** [etymology IS NOT NULL AND etymology != ''] *)
Definition has_etymology (r : word_translation) : bool :=
  truthy (etymology r).

(** The binding of the parameters of a statement.  An int has to fit
    the signed 64 bits of an SQLite INTEGER, else OverflowError; a text
    has to be encodable, which one with a surrogate code point is not,
    else UnicodeEncodeError; None is bound as NULL. *)
Definition int64 (z : Z) : bool :=
  ((- 2 ^ 63 <=? z) && (z <=? 2 ^ 63 - 1))%Z.

Definition encodable (s : str) : bool :=
  forallb (fun c => negb ((0xD800 <=? c) && (c <=? 0xDFFF))%N) s.

Definition bind_int (z : Z) : result unit :=
  if int64 z then Ok tt else Raise OverflowError.

Definition bind_text (v : optstr) : result unit :=
  match v with
  | Some s => if encodable s then Ok tt else Raise UnicodeEncodeError
  | None => Ok tt
  end.

(** An open connection: the table of the file and the table as the
    statements of the open transaction have left it. *)
Record connection := { disk : table; pending : table }.

Definition connect (db : table) : connection :=
  {| disk := db; pending := db |}.

(** [UPDATE word_translations SET etymology = v WHERE cond] once its
    parameters are bound, with the [rowcount] of the cursor: the number
    of rows the condition selects. *)
Definition execute_update (cond : word_translation -> bool) (v : optstr)
    (conn : connection) : connection * Z :=
  ({| disk := disk conn;
      pending := map (fun r => if cond r then set_etymology v r else r)
                     (pending conn) |},
   Z.of_nat (List.length (filter cond (pending conn)))).

Definition commit (conn : connection) : connection :=
  {| disk := pending conn; pending := pending conn |}.

(** Closing drops what was not committed; the file is what remains. *)
Definition close (conn : connection) : table := disk conn.

(** The table of the file after a run that started on [db]: the one
    that the run returns, or [db] itself when an exception has ended
    the run before its commit. *)
Definition table_after {A} (db : table) (r : result (table * A)) : table :=
  match r with
  | Ok (t, _) => t
  | Raise _ => db
  end.

End Db.

(** ** import_roots_from_morphology.py *)

Module ImportRoots.
Import Py Db.

Definition format_root (root : optstr) : optstr :=
  match root with
  | None => None
  | Some [] => None
  | Some r => Some (join [dash] (chars r))
  end.

(** [re.search(r'ROOT:([^\|]+)', morphology)], returning group 1 of the
    leftmost match: the longest run of characters other than [|] after
    the first [ROOT:] that is followed by such a character. *)
Fixpoint until_pipe (s : str) : str :=
  match s with
  | [] => []
  | c :: s' => if N.eqb c pipe then [] else c :: until_pipe s'
  end.

Fixpoint re_search_root (morphology : str) : option str :=
  match morphology with
  | [] => None
  | _ :: rest =>
      match strip_prefix (lit "ROOT:") morphology with
      | Some after =>
          match until_pipe after with
          | [] => re_search_root rest
          | root => Some root
          end
      | None => re_search_root rest
      end
  end.

Definition key := (Z * Z * Z)%type.

Definition key_eqb (k k' : key) : bool :=
  let '(s, a, w) := k in
  let '(s', a', w') := k' in
  (s =? s')%Z && (a =? a')%Z && (w =? w')%Z.

(** The dict [word_roots]: its items in insertion order, keys distinct. *)
Definition dict := list (key * optstr).

Definition contains (k : key) (d : dict) : bool :=
  existsb (fun e => key_eqb k (fst e)) d.

Fixpoint getitem (k : key) (d : dict) : option optstr :=
  match d with
  | [] => None
  | (k', v) :: d' => if key_eqb k k' then Some v else getitem k d'
  end.

(** [d[k] = v]: a present key keeps its place, a new one goes last. *)
Fixpoint setitem (k : key) (v : optstr) (d : dict) : dict :=
  match d with
  | [] => [(k, v)]
  | (k', v') :: d' =>
      if key_eqb k k' then (k', v) :: d' else (k', v') :: setitem k v d'
  end.

Section Parse.

(** The builtin [int] on a [str]; [None] is its [ValueError].  The
    functions below are given for any such parser, [Py.int] is the one
    used on concrete inputs. *)
Variable int : str -> option Z.

Definition to_int (s : str) : result Z :=
  match int s with
  | Some z => Ok z
  | None => Raise ValueError
  end.

(** Lines 41 to 63 of the loop body: what one line yields before the
    dict is consulted.  [Ok None] is a line passed over by [continue] or
    without a ROOT tag. *)
Definition root_tag (line : str) : result (option (key * str)) :=
  if match line with [] => true | _ => false end || startswith line [hash]
  then Ok None
  else
    let parts := split tab line in
    if (List.length parts <? 4)%nat then Ok None
    else
      let location := nth 0 parts [] in
      let morphology := nth 3 parts [] in
      let loc_parts := split colon location in
      if (List.length loc_parts <? 3)%nat then Ok None
      else
        bind (to_int (nth 0 loc_parts [])) (fun sura =>
        bind (to_int (nth 1 loc_parts [])) (fun ayah =>
        bind (to_int (nth 2 loc_parts [])) (fun word_pos =>
        match re_search_root morphology with
        | Some root => Ok (Some ((sura, ayah, word_pos), root))
        | None => Ok None
        end))).

(** Lines 64 to 69: the first root of a key is stored, later ones not. *)
Definition store (word_roots : dict) (tag : option (key * str)) : dict :=
  match tag with
  | Some (k, root) =>
      if contains k word_roots then word_roots
      else setitem k (format_root (Some root)) word_roots
  | None => word_roots
  end.

Definition loop_body (word_roots : dict) (line : str) : result dict :=
  bind (root_tag line) (fun tag => Ok (store word_roots tag)).

Definition lines (data : str) : list str := split newline (strip data).

Definition parse_morphology (data : str) : result dict :=
  for_each loop_body (lines data) [].

End Parse.

(** The WHERE clause of the keyed update. *)
Definition at_key (k : key) (r : word_translation) : bool :=
  let '(s, a, w) := k in
  (sura r =? s)%Z && (ayah r =? a)%Z && (word_position r =? w)%Z.

Definition counters := (Z * Z)%type.

(** The body of the loop once the parameters of its statement are
    bound: the statement and the two counters (lines 82 to 91). *)
Definition bound_step (st : connection * counters) (item : key * optstr)
  : connection * counters :=
  let '(conn, (updated, not_found)) := st in
  let '(k, root) := item in
  let '(conn', rowcount) := execute_update (at_key k) root conn in
  if (0 <? rowcount)%Z then (conn', (updated + 1, not_found)%Z)
  else (conn', (updated, not_found + 1)%Z).

(** The binding of [(root, sura, ayah, word_pos)], in this order. *)
Definition bind_item (item : key * optstr) : result unit :=
  let '((sura, ayah, word_pos), root) := item in
  bind (bind_text root) (fun _ =>
  bind (bind_int sura) (fun _ =>
  bind (bind_int ayah) (fun _ =>
  bind_int word_pos))).

Definition update_step (st : connection * counters) (item : key * optstr)
  : result (connection * counters) :=
  bind (bind_item item) (fun _ => Ok (bound_step st item)).

(** The table of the file after the run, with [(updated, not_found)].
    An exception leaves before the commit: the file keeps its table. *)
Definition update_database (word_roots : dict) (db : table)
  : result (table * counters) :=
  bind (for_each update_step word_roots (connect db, (0, 0)%Z)) (fun st =>
  Ok (close (commit (fst st)), snd st)).

(** Every parameter of the statement of an entry can be bound. *)
Definition bindable (item : key * optstr) : bool :=
  match bind_item item with
  | Ok _ => true
  | Raise _ => false
  end.

(** The run of a mapping all of whose entries are bindable. *)
Definition bound_run (word_roots : dict) (db : table) : table * counters :=
  let '(conn, count) :=
    fold_left bound_step word_roots (connect db, (0, 0)%Z) in
  (close (commit conn), count).

(** Letters of the examples. *)
Definition ra : char := 0x631%N.
Definition hah : char := 0x62D%N.
Definition meem : char := 0x645%N.
Definition ain : char := 0x639%N.
Definition lam : char := 0x644%N.

(** Two segments of the word at 1:1:1, each with a ROOT tag. *)
Definition two_segments : str :=
  lit "1:1:1:1" ++ [tab] ++ lit "x" ++ [tab] ++ lit "N" ++ [tab]
    ++ lit "ROOT:" ++ [ra; hah; meem] ++ lit "|LEM:y" ++ [newline]
  ++ lit "1:1:1:2" ++ [tab] ++ lit "z" ++ [tab] ++ lit "N" ++ [tab]
    ++ lit "ROOT:" ++ [ain; lam; meem] ++ [newline].

(** A line of four fields whose location does not start with a number. *)
Definition bad_location : str :=
  lit "x:1:1:1" ++ [tab] ++ lit "w" ++ [tab] ++ lit "N" ++ [tab]
    ++ lit "ROOT:" ++ [ra; hah; meem].

(** A stored value: a non-empty root with dashes between its letters. *)
Definition dashed (v : optstr) : Prop :=
  exists r, r <> [] /\ v = Some (join [dash] (chars r))
            /\ join [dash] (chars r) <> [].

(** What a row of the table can have become after a run. *)
Definition kept_or_rooted (old new : word_translation) : Prop :=
  new = old \/ exists s, s <> [] /\ new = set_etymology (Some s) old.

(** A key that no SQLite INTEGER holds, with a root. *)
Definition beyond_int64 : dict := [((2 ^ 63, 1, 1)%Z, Some [ra; dash; hah; dash; meem])].

(** A table of one word, at 1:1:1 and without etymology. *)
Definition one_word : table :=
  [{| id := 1; sura := 1; ayah := 1; word_position := 1;
      arabic_text := Some [ra; hah; meem]; translation := None;
      transliteration := None; etymology := None |}].

(** The coordinates of a row, as the keys of [word_roots] have them. *)
Definition row_key (r : word_translation) : key :=
  (sura r, ayah r, word_position r).

(** A row with the root that a mapping holds for its coordinates. *)
Definition with_root_of (m : dict) (r : word_translation) : word_translation :=
  match getitem (row_key r) m with
  | Some v => set_etymology v r
  | None => r
  end.

(** [get_stats]: [(total, with_root)]. *)
Definition get_stats (db : table) : Z * Z :=
  (Z.of_nat (List.length db),
   Z.of_nat (List.length (filter has_etymology db))).

(** [100*with_root/total] of the two progress lines, before rounding. *)
Definition percent (with_root total : Z) : result Q :=
  if (total =? 0)%Z then Raise ZeroDivisionError
  else Ok (inject_Z (100 * with_root) / inject_Z total)%Q.

(** The numbers that [main] prints, in the order of its lines. *)
Record report := {
  before : Z * Z;
  before_percent : Q;
  downloaded : Z;
  extracted : Z;
  updated : Z;
  not_found : Z;
  after : Z * Z;
  after_percent : Q
}.

Section Main.

Variable int : str -> option Z.

(** [main], for the text [data] that [download_morphology] returns:
    the table of the file afterwards and the report.  An exception
    leaves the table of the file as it was: the ones modelled are
    raised before the commit of [update_database]. *)
Definition main (data : str) (db : table) : result (table * report) :=
  let '(total, with_root) := get_stats db in
  bind (percent with_root total) (fun p =>
  bind (parse_morphology int data) (fun word_roots =>
  bind (update_database word_roots db) (fun run =>
  let '(db', (n_updated, n_not_found)) := run in
  let '(total', with_root') := get_stats db' in
  bind (percent with_root' total') (fun p' =>
  Ok (db',
      {| before := (total, with_root); before_percent := p;
         downloaded := Z.of_nat (List.length data);
         extracted := Z.of_nat (List.length word_roots);
         updated := n_updated; not_found := n_not_found;
         after := (total', with_root'); after_percent := p' |}))))).

End Main.

End ImportRoots.
(** ** populate_etymology.py *)

Module PopulateEtymology.
Import Py Db.

(** The WHERE clause [arabic_text = ?]. *)
Definition by_text (arabic : optstr) (r : word_translation) : bool :=
  sql_eq (arabic_text r) arabic.

(** The items of the loaded JSON object, in order: a text or null for
    each name. *)
Definition mappings := list (str * optstr).

(** The binding of [(etymology, arabic_text)], in this order. *)
Definition bind_pair (etymology arabic_text : optstr) : result unit :=
  bind (bind_text etymology) (fun _ => bind_text arabic_text).

(** The body of the loop once the parameters of its statement are
    bound: the statement and the count (lines 70 to 74). *)
Definition bound_json_step (st : connection * Z) (item : str * optstr)
  : connection * Z :=
  let '(conn, updated) := st in
  let '(arabic_text, etymology) := item in
  let '(conn', rowcount) :=
    execute_update (by_text (Some arabic_text)) etymology conn in
  (conn', (updated + rowcount)%Z).

Definition json_step (st : connection * Z) (item : str * optstr)
  : result (connection * Z) :=
  bind (bind_pair (snd item) (Some (fst item))) (fun _ =>
  Ok (bound_json_step st item)).

(** The table of the file after the run and the count that is printed.
    An exception leaves before the commit: the file keeps its table. *)
Definition update_from_json (m : mappings) (db : table) : result (table * Z) :=
  bind (for_each json_step m (connect db, 0%Z)) (fun st =>
  Ok (close (commit (fst st)), snd st)).

(** Both texts of an item can be bound. *)
Definition bindable_item (item : str * optstr) : bool :=
  match bind_pair (snd item) (Some (fst item)) with
  | Ok _ => true
  | Raise _ => false
  end.

(** The run of items that can all be bound. *)
Definition bound_json_run (m : mappings) (db : table) : table * Z :=
  let '(conn, updated) := fold_left bound_json_step m (connect db, 0%Z) in
  (close (commit conn), updated).

(** A row as [csv.DictReader] yields it: the value of each column of
    the header, [None] where the line is too short to have one. *)
Definition csv_row := list (str * optstr).

(** [row.get(name)] *)
Fixpoint get (name : str) (row : csv_row) : optstr :=
  match row with
  | [] => None
  | (k, v) :: row' => if str_eqb k name then v else get name row'
  end.

(** [row[name]] *)
Fixpoint getitem (name : str) (row : csv_row) : result optstr :=
  match row with
  | [] => Raise KeyError
  | (k, v) :: row' => if str_eqb k name then Ok v else getitem name row'
  end.

Definition csv_step (st : connection * Z) (row : csv_row)
  : result (connection * Z) :=
  let '(conn, updated) := st in
  if truthy (get (lit "etymology") row) then
    bind (getitem (lit "etymology") row) (fun etymology =>
    bind (getitem (lit "arabic_text") row) (fun arabic_text =>
    bind (bind_pair etymology arabic_text) (fun _ =>
    let '(conn', rowcount) :=
      execute_update (by_text arabic_text) etymology conn in
    Ok (conn', (updated + rowcount)%Z))))
  else Ok st.

(** An exception leaves before the commit: the file keeps its table. *)
Definition update_from_csv (rows : list csv_row) (db : table)
  : result (table * Z) :=
  bind (for_each csv_step rows (connect db, 0%Z)) (fun st =>
  Ok (close (commit (fst st)), snd st)).

(** A prompted word: arabic_text, translation, transliteration. *)
Definition word := (optstr * optstr * optstr)%type.

Definition word_eqb (w w' : word) : bool :=
  let '(a, t, l) := w in
  let '(a', t', l') := w' in
  optstr_eqb a a' && optstr_eqb t t' && optstr_eqb l l'.

(** SELECT DISTINCT over a scan: each value once, where it first occurs. *)
Fixpoint distinct {A} (eqb : A -> A -> bool) (l : list A) : list A :=
  match l with
  | [] => []
  | x :: l' => x :: filter (fun y => negb (eqb x y)) (distinct eqb l')
  end.

(** [etymology IS NULL OR etymology = ''] *)
Definition missing_etymology (r : word_translation) : bool :=
  negb (has_etymology r).

Definition select_words (t : table) : list word :=
  firstn 100
    (distinct word_eqb
       (map (fun r => (arabic_text r, translation r, transliteration r))
            (filter missing_etymology t))).

(** The loop over the words, [inputs] being the lines that [input]
    returns one after the other; [EOFError] when they run out.  Of the
    two parameters of the statement the answer is bound here; the
    arabic_text was read from the table, and what the table holds can
    be bound. *)
Fixpoint prompt_loop (words : list word) (inputs : list str)
    (conn : connection) : result connection :=
  match words with
  | [] => Ok conn
  | (arabic, _, _) :: words' =>
      match inputs with
      | [] => Raise EOFError
      | answer :: inputs' =>
          let etymology := strip answer in
          if str_eqb (lower etymology) (lit "quit") then Ok conn
          else if str_eqb (lower etymology) (lit "skip")
                  || negb (truthy (Some etymology))
          then prompt_loop words' inputs' conn
          else bind (bind_text (Some etymology)) (fun _ =>
               prompt_loop words' inputs'
                 (fst (execute_update (by_text arabic) (Some etymology) conn)))
      end
  end.

(** The table of the file after the session. *)
Definition interactive_mode (inputs : list str) (db : table) : result table :=
  let conn := connect db in
  let words := select_words (pending conn) in
  bind (prompt_loop words inputs conn) (fun conn' =>
  Ok (close (commit conn'))).

(** [a / b] on two ints, as the exact quotient. *)
Definition truediv (a b : Z) : result Q :=
  if (b =? 0)%Z then Raise ZeroDivisionError
  else Ok (inject_Z a / inject_Z b)%Q.

(** [COUNT(DISTINCT arabic_text)]: NULL is not counted. *)
Definition count_distinct_text (t : table) : Z :=
  Z.of_nat (List.length
    (distinct optstr_eqb
       (filter (fun a => match a with Some _ => true | None => false end)
               (map arabic_text t)))).

(** The numbers of the report; the two percentages are what the format
    expressions of the last two lines divide out, before rounding. *)
Record stats := {
  total : Z;
  unique_words : Z;
  with_etymology : Z;
  unique_with_etymology : Z;
  entries_percent : Q;
  unique_percent : Q
}.

Definition show_stats (db : table) : result stats :=
  let total := Z.of_nat (List.length db) in
  let with_etymology := Z.of_nat (List.length (filter has_etymology db)) in
  let unique_words := count_distinct_text db in
  let unique_with_etymology :=
    count_distinct_text (filter has_etymology db) in
  bind (truediv (100 * with_etymology) total) (fun p =>
  bind (truediv (100 * unique_with_etymology) unique_words) (fun q =>
  Ok {| total := total; unique_words := unique_words;
        with_etymology := with_etymology;
        unique_with_etymology := unique_with_etymology;
        entries_percent := p; unique_percent := q |})).

(** Example data: three rows without etymology, the first two with the
    same arabic_text under two translations. *)
Definition word_row (i : Z) (arabic translation : str) : word_translation :=
  {| id := i; sura := 1; ayah := 1; word_position := i;
     arabic_text := Some arabic; translation := Some translation;
     transliteration := None; etymology := None |}.

Definition rhm : str := [0x631; 0x62D; 0x645]%N.
Definition elm : str := [0x639; 0x644; 0x645]%N.
Definition r_h_m : str := [0x631; dash; 0x62D; dash; 0x645]%N.

Definition shared_text : table :=
  [word_row 1 rhm (lit "mercy"); word_row 2 rhm (lit "womb");
   word_row 3 elm (lit "knowledge")].

Definition skip_root_quit : list str := [lit "skip"; r_h_m; lit "quit"].

(** Rows of a CSV file with the header arabic_text,etymology: one with
    a root, one with an empty etymology, one cut short before it. *)
Definition csv_full : csv_row :=
  [(lit "arabic_text", Some rhm); (lit "etymology", Some r_h_m)].
Definition csv_empty : csv_row :=
  [(lit "arabic_text", Some elm); (lit "etymology", Some [])].
Definition csv_short : csv_row :=
  [(lit "arabic_text", Some elm); (lit "etymology", None)].

(** The items that the rows of a CSV file stand for: one for each row
    with an etymology and an arabic_text, in the order of the rows. *)
Definition csv_items (rows : list csv_row) : mappings :=
  flat_map (fun row =>
              if truthy (get (lit "etymology") row)
              then match get (lit "arabic_text") row with
                   | Some a => [(a, get (lit "etymology") row)]
                   | None => []
                   end
              else []) rows.

(** [arabic_text IS NOT NULL] *)
Definition has_text (r : word_translation) : bool :=
  match arabic_text r with Some _ => true | None => false end.

(** The value that the items of a mapping leave in the etymology of a
    row with the text [a], [x] being there before: the last of the
    items named [a] decides. *)
Definition last_value (m : mappings) (a x : optstr) : optstr :=
  fold_left (fun x e => if sql_eq a (Some (fst e)) then snd e else x) m x.

End PopulateEtymology.

(** ** populate_root_meanings.py *)

Module PopulateRootMeanings.
Local Open Scope string_scope.

(** The texts of this script are only stored and compared: they are
    kept as the UTF-8 literals of the source.  [None | str]: *)
Definition text := option string.

(** (root, primary_meaning, extended_meaning, quran_usage, notes) *)
Definition entry := (text * text * text * text * text)%type.

Definition ROOT_MEANINGS : list entry := [
  (Some "ك-ف-ر",
   Some "to cover, to conceal, to hide",
   Some "Originally meant to cover something, like a farmer covering seeds with soil. Also means to be ungrateful (covering blessings).",
   Some "In the Quran, refers to rejecting or concealing the truth of Allah's signs. A kafir is one who 'covers' or denies the evident truth.",
   Some "In classical Arabic, a farmer was also called 'kafir' because he covers seeds. Night is called 'kafir' because it covers the day.");
  (Some "ر-ح-م",
   Some "mercy, compassion, womb",
   Some "The root connects mercy with the womb (rahim), suggesting that divine mercy is like a mother's love - nurturing, protective, and unconditional.",
   Some "Allah's names Al-Rahman and Al-Rahim both derive from this root. Rahman indicates all-encompassing mercy, Rahim indicates specific mercy for believers.",
   Some "The connection between 'womb' and 'mercy' shows how Arabic roots carry deep semantic relationships.");
  (Some "س-م-و",
   Some "to be high, to rise, name, sky",
   Some "Connects the concepts of elevation, naming, and the heavens. A name (ism) elevates and distinguishes something.",
   Some "Used for sky (sama'), names (ism), and elevation. 'Bismillah' uses this root - beginning with Allah's name that is most elevated.",
   None);
  (Some "ع-ل-م",
   Some "to know, knowledge, sign, world",
   Some "Encompasses knowing, teaching, signs/marks, and the world (which is a sign of the Creator).",
   Some "Al-Alim (The All-Knowing) is one of Allah's names. 'Alameen' (worlds/universe) shares this root - the creation is a sign pointing to knowledge of the Creator.",
   Some "The word 'ulama' (scholars) and 'alam' (world/flag/sign) all share this root.");
  (Some "ح-م-د",
   Some "to praise, to thank, to commend",
   Some "Praise that comes from recognizing inherent goodness and beauty, not just receiving benefit.",
   Some "Al-Hamdulillah (all praise is for Allah) opens Surah Al-Fatihah. Muhammad and Ahmad (names of the Prophet) derive from this root.",
   Some "Unlike 'shukr' (gratitude for receiving), 'hamd' is praise for inherent qualities.");
  (Some "أ-ل-ه",
   Some "deity, god, to worship, to be bewildered",
   Some "Originally implied being bewildered or seeking refuge, evolving to mean the one worthy of worship.",
   Some "Allah is the proper name of God, combining 'al' (the) with 'ilah' (deity) - The One True God.",
   Some "The root suggests that humans naturally turn to a higher power in times of need.");
  (Some "ص-ل-و",
   Some "prayer, connection, supplication",
   Some "Implies a close connection and turning towards. The physical movements of salah reflect this turning and connection.",
   Some "Salah is not just ritual prayer but a direct connection with Allah. The word also means blessings (as in 'salawat' upon the Prophet).",
   None);
  (Some "ع-ب-د",
   Some "to worship, to serve, servant, slave",
   Some "Complete submission and service. A slave has no will against their master's will.",
   Some "Ibadah (worship) means complete submission to Allah. 'Abd' (servant) is the highest title - Abdullah means 'servant of Allah'.",
   Some "True freedom in Islam comes through being a slave only to Allah, not to desires or other creations.");
  (Some "ه-د-ي",
   Some "to guide, guidance, gift",
   Some "Leading someone gently to their destination. Also means a gift (something you guide towards someone).",
   Some "Al-Hadi is one of Allah's names. 'Ihdina al-sirat al-mustaqim' - Guide us to the straight path.",
   Some "Hidayah (guidance) is considered the greatest gift from Allah.");
  (Some "ق-ر-ء",
   Some "to read, to recite, to gather",
   Some "Originally meant to gather or collect. Recitation gathers letters into words into meanings.",
   Some "The Quran literally means 'the recitation' or 'that which is recited'. The first revelation was 'Iqra' - Read/Recite!",
   None);
  (Some "أ-م-ن",
   Some "to be safe, security, faith, trust",
   Some "Safety, security, and trust are interconnected. Faith (iman) provides inner security.",
   Some "Iman (faith) provides security for the heart. A mu'min (believer) is one who has inner peace through faith. Amen comes from this root.",
   Some "The connection between faith and security shows that true peace comes from trust in Allah.");
  (Some "ج-ن-ن",
   Some "to cover, to hide, to be concealed",
   Some "Anything hidden or concealed. Gardens hide what's inside with their foliage.",
   Some "Jinn are hidden beings. Jannah (paradise) is a hidden garden. Janin (fetus) is hidden in the womb. Junun (madness) is when reason is hidden.",
   Some "Many seemingly different words share this root through the concept of being hidden.");
  (Some "ن-و-ر",
   Some "light, illumination, to enlighten",
   Some "Physical and spiritual light. Knowledge and guidance are described as light.",
   Some "Allah is described as the Light of the heavens and earth (Ayat al-Nur). The Quran is called a 'light' that guides from darkness.",
   None);
  (Some "ظ-ل-م",
   Some "darkness, injustice, oppression, to wrong",
   Some "Darkness and injustice share a root - injustice obscures the light of truth and fairness.",
   Some "Zulm (oppression/injustice) is putting something in the wrong place. Zulumat (darknesses) is the opposite of nur (light).",
   Some "Shirk (associating partners with Allah) is called the greatest zulm because it misplaces worship.");
  (Some "ش-ك-ر",
   Some "to thank, gratitude, to appreciate",
   Some "Recognizing and acknowledging blessings received. Implies action in response to blessings.",
   Some "Ash-Shakur (The Most Appreciative) is one of Allah's names - He appreciates even small good deeds. Shukr is responding to blessings with gratitude.",
   Some "Different from hamd (praise) - shukr is specifically gratitude for blessings received.");
  (Some "ت-و-ب",
   Some "to return, to repent, to turn back",
   Some "Repentance literally means 'returning' to Allah. Implies a journey away and coming back.",
   Some "At-Tawwab (The Accepting of Repentance) is one of Allah's names. Tawbah is returning to Allah after straying.",
   Some "The door of tawbah is always open - one can always return.");
  (Some "ذ-ك-ر",
   Some "to remember, to mention, male",
   Some "Remembrance, mention, and masculinity share this root. Dhikr keeps something present in the mind.",
   Some "Dhikr (remembrance of Allah) is one of the most emphasized acts of worship. The Quran itself is called 'Al-Dhikr'.",
   None);
  (Some "ف-ت-ح",
   Some "to open, victory, conquest, to begin",
   Some "Opening can be physical (door) or abstract (victory, beginning). Fatiha opens the Quran.",
   Some "Al-Fattah (The Opener) is one of Allah's names. Surah Al-Fatiha 'opens' the Quran. Fath also means victory (Surah Al-Fath).",
   None);
  (Some "س-ل-م",
   Some "peace, safety, submission, soundness",
   Some "Peace comes through submission. Islam means submission (to Allah). Muslim is one who submits. Salam means peace.",
   Some "Islam, Muslim, and Salam all share this root. True peace (salam) comes through submission (islam) to Allah.",
   Some "The greeting 'Assalamu Alaikum' means 'peace be upon you' - wishing safety and submission to Allah's will.");
  (Some "ق-ل-ب",
   Some "heart, to turn, to flip, to change",
   Some "The heart is called 'qalb' because it constantly turns and changes states.",
   Some "The heart (qalb) is the spiritual center that can turn towards or away from Allah. Seeking 'qalb saleem' (sound heart) is the goal.",
   Some "The Prophet (PBUH) would pray: 'O Turner of hearts, keep my heart firm on Your religion.'")
].

(** A row of [root_meanings]; [root] and [primary_meaning] are NOT NULL. *)
Record root_meaning := {
  id : Z;
  root : string;
  primary_meaning : string;
  extended_meaning : text;
  quran_usage : text;
  notes : text
}.

(** The table: its rows in ascending [id], and the largest [id] it has
    ever given out (the AUTOINCREMENT counter). *)
Record root_meanings := { rows : list root_meaning; seq : Z }.

(** The database file: [None] while the table does not exist. *)
Definition database := option root_meanings.

(** [CREATE TABLE IF NOT EXISTS root_meanings(...)] *)
Definition create_table (db : database) : root_meanings :=
  match db with
  | Some t => t
  | None => {| rows := []; seq := 0 |}
  end.

Definition max_id (l : list root_meaning) : Z :=
  fold_right (fun r m => Z.max (id r) m) 0%Z l.

(** The largest id that the table has given out or holds, and the
    largest id that there is. *)
Definition high_id (t : root_meanings) : Z :=
  Z.max (seq t) (max_id (rows t)).

Definition max_rowid : Z := (2 ^ 63 - 1)%Z.

(** The statement once the id of the new row is at hand: [None] is the
    IntegrityError of a NULL in a NOT NULL column; otherwise the row
    that holds the same [root] is deleted and the new row is added
    under the id [fresh]. *)
Definition insert_with_id (fresh : Z) (e : entry) (t : root_meanings)
  : option root_meanings :=
  match e with
  | (Some r, Some p, ext, usage, n) =>
      let kept := filter (fun row => negb (String.eqb (root row) r)) (rows t) in
      Some {| rows := kept ++ [{| id := fresh; root := r;
                                  primary_meaning := p;
                                  extended_meaning := ext;
                                  quran_usage := usage; notes := n |}];
              seq := fresh |}
  | _ => None
  end.

(** [INSERT OR REPLACE INTO root_meanings (root, ...) VALUES (...)]:
    [None] is the exception that the statement raises.  The id of the
    new row is one more than the largest that the table has given out
    or holds; when that one is the largest id that there is, the
    statement fails (the table is full) and nothing is replaced. *)
Definition insert_or_replace (e : entry) (t : root_meanings)
  : option root_meanings :=
  if (max_rowid <=? high_id t)%Z then None
  else insert_with_id (high_id t + 1) e t.

(** The body of the loop, with its [try] and [except]. *)
Definition insert_step (st : root_meanings * Z) (e : entry)
  : root_meanings * Z :=
  let '(t, inserted) := st in
  match insert_or_replace e t with
  | Some t' => (t', (inserted + 1)%Z)
  | None => (t, inserted)
  end.

(** The database after the commit and the count that is printed, for
    the catalog [catalog] in the place of [ROOT_MEANINGS]. *)
Definition populate (catalog : list entry) (db : database) : database * Z :=
  let '(t, inserted) := fold_left insert_step catalog (create_table db, 0%Z) in
  (Some t, inserted).

Definition populate_root_meanings (db : database) : database * Z :=
  populate ROOT_MEANINGS db.

(** What a row holds besides its surrogate key. *)
Definition content (r : root_meaning) : entry :=
  (Some (root r), Some (primary_meaning r), extended_meaning r,
   quran_usage r, notes r).

Definition contents (db : database) : list entry :=
  map content (rows (create_table db)).

(** The upsert on contents: an entry with a root and a primary meaning
    takes the place of the content with its root, at the end. *)
Definition has_root (r : string) (c : entry) : bool :=
  match c with
  | (Some r', _, _, _, _) => String.eqb r' r
  | _ => false
  end.

Definition upsert (l : list entry) (e : entry) : list entry :=
  match e with
  | (Some r, Some _, _, _, _) => filter (fun c => negb (has_root r c)) l ++ [e]
  | _ => l
  end.

(** The entries that the table accepts. *)
Definition accepted (e : entry) : bool :=
  match e with
  | (Some _, Some _, _, _, _) => true
  | _ => false
  end.

(** An entry of the catalog [es] is accepted and has the root of [c]. *)
Definition replaced (es : list entry) (c : entry) : bool :=
  existsb (fun e => match e with
                    | (Some r, Some _, _, _, _) => has_root r c
                    | _ => false
                    end) es.

(** The table of [db] can still give out [n] ids. *)
Definition ids_left (n : nat) (db : database) : Prop :=
  (high_id (create_table db) + Z.of_nat n <= max_rowid)%Z.

(** The turn of the loop and the run on a table that has ids left. *)
Definition free_step (st : root_meanings * Z) (e : entry)
  : root_meanings * Z :=
  let '(t, inserted) := st in
  match insert_with_id (high_id t + 1) e t with
  | Some t' => (t', (inserted + 1)%Z)
  | None => (t, inserted)
  end.

Definition free_populate (catalog : list entry) (db : database)
  : database * Z :=
  let '(t, inserted) := fold_left free_step catalog (create_table db, 0%Z) in
  (Some t, inserted).

(** A table with one row under the first root of the catalog, which
    holds other values than the catalog has for it. *)
Definition stale_table : database :=
  Some {| rows := [{| id := 7; root := "ك-ف-ر";
                      primary_meaning := "older";
                      extended_meaning := None; quran_usage := None;
                      notes := None |}];
          seq := 7 |}.

(** A table whose one row, under the first root of the catalog, has the
    largest id that there is. *)
Definition full_table : database :=
  Some {| rows := [{| id := max_rowid; root := "ك-ف-ر";
                      primary_meaning := "an older meaning";
                      extended_meaning := None; quran_usage := None;
                      notes := None |}];
          seq := max_rowid |}.

End PopulateRootMeanings.

(** * Properties *)

(** ** Python values *)

Section PyFacts.
Import Py.

Lemma str_eqb_eq (s t : str) : str_eqb s t = true <-> s = t.
Proof.
  revert t; induction s as [|c s IH]; intros [|d t]; simpl;
    try (split; [discriminate | congruence]); try tauto.
  rewrite andb_true_iff, N.eqb_eq, IH.
  split; [intros [-> ->]; reflexivity | intros H; injection H; auto].
Qed.

Lemma str_eqb_refl (s : str) : str_eqb s s = true.
Proof. apply str_eqb_eq; reflexivity. Qed.

Lemma bind_Ok {A B} (r : result A) (k : A -> result B) (b : B) :
  bind r k = Ok b -> exists a, r = Ok a /\ k a = Ok b.
Proof. destruct r as [a|e]; simpl; [eauto | discriminate]. Qed.

Lemma for_each_app {A S} (body : S -> A -> result S) (l1 l2 : list A) (s : S) :
  for_each body (l1 ++ l2) s = bind (for_each body l1 s) (for_each body l2).
Proof.
  revert s; induction l1 as [|x l1 IH]; intros s; simpl; [reflexivity|].
  destruct (body s x) as [s'|e]; simpl; [apply IH | reflexivity].
Qed.

(** A loop whose body first checks its item and then cannot fail:
    the checks of all the items, then the body folded over them. *)
Lemma for_each_checked {A S} (check : A -> result unit) (pure : S -> A -> S)
    (l : list A) :
  forall s,
    for_each (fun s x => bind (check x) (fun _ => Ok (pure s x))) l s
    = bind (for_each (fun _ x => check x) l tt)
           (fun _ => Ok (fold_left pure l s)).
Proof.
  induction l as [|x l IH]; intros s; cbn [for_each fold_left]; [reflexivity|].
  destruct (check x) as [[]|e]; cbn [bind]; [apply IH | reflexivity].
Qed.

Lemma checks_pass {A} (check : A -> result unit) (l : list A) :
  forallb (fun x => match check x with Ok _ => true | Raise _ => false end) l
  = true ->
  for_each (fun _ x => check x) l tt = Ok tt.
Proof.
  induction l as [|x l IH]; cbn [forallb for_each]; [reflexivity|].
  destruct (check x) as [[]|e]; cbn [bind andb]; [exact IH | discriminate].
Qed.

Lemma checks_fail {A} (check : A -> result unit) (l : list A) :
  forallb (fun x => match check x with Ok _ => true | Raise _ => false end) l
  = false ->
  exists e, for_each (fun _ x => check x) l tt = Raise e.
Proof.
  induction l as [|x l IH]; cbn [forallb for_each]; [discriminate|].
  destruct (check x) as [[]|e]; cbn [bind andb]; [exact IH | eauto].
Qed.

(** The text with a dash after each character but the last. *)
Lemma join_chars_cons (c d : char) (r : str) :
  join [dash] (chars (c :: d :: r)) = c :: dash :: join [dash] (chars (d :: r)).
Proof. reflexivity. Qed.

Lemma join_chars_length (c : char) (r : str) :
  List.length (join [dash] (chars (c :: r))) = (2 * List.length r + 1)%nat.
Proof.
  revert c; induction r as [|d r IH]; intros c; [reflexivity|].
  rewrite join_chars_cons. cbn [List.length]. rewrite IH. lia.
Qed.

Lemma join_chars_even (r : str) (i : nat) :
  (i < List.length r)%nat ->
  nth_error (join [dash] (chars r)) (2 * i) = nth_error r i.
Proof.
  revert i; induction r as [|c r IH]; intros i Hi; simpl in Hi; [lia|].
  destruct r as [|d r].
  - destruct i; [reflexivity | simpl in Hi; lia].
  - rewrite join_chars_cons. destruct i as [|i]; [reflexivity|].
    replace (2 * S i)%nat with (S (S (2 * i))) by lia.
    simpl nth_error. apply IH. simpl in *; lia.
Qed.

Lemma join_chars_odd (r : str) (i : nat) :
  (i + 1 < List.length r)%nat ->
  nth_error (join [dash] (chars r)) (2 * i + 1) = Some dash.
Proof.
  revert i; induction r as [|c r IH]; intros i Hi; simpl in Hi; [lia|].
  destruct r as [|d r]; [simpl in Hi; lia|].
  rewrite join_chars_cons. destruct i as [|i]; [reflexivity|].
  replace (2 * S i + 1)%nat with (S (S (2 * i + 1))) by lia.
  simpl nth_error. apply IH. simpl in *; lia.
Qed.

Lemma lstrip_head (s : str) :
  match lstrip s with
  | [] => True
  | c :: _ => isspace c = false
  end.
Proof.
  induction s as [|c s IH]; simpl; [exact I|].
  destruct (isspace c) eqn:E; [exact IH | exact E].
Qed.

Lemma lstrip_fixed (c : char) (s : str) :
  isspace c = false -> lstrip (c :: s) = c :: s.
Proof. intros E; simpl; rewrite E; reflexivity. Qed.

Lemma lstrip_lstrip (s : str) : lstrip (lstrip s) = lstrip s.
Proof.
  pose proof (lstrip_head s) as H.
  destruct (lstrip s) as [|c t]; [reflexivity | apply lstrip_fixed, H].
Qed.

Lemma lstrip_snoc (s : str) (c : char) :
  isspace c = false -> lstrip (s ++ [c]) = lstrip s ++ [c].
Proof.
  intros E. induction s as [|d s IH]; simpl; [rewrite E; reflexivity|].
  destruct (isspace d); [exact IH | reflexivity].
Qed.

Lemma rstrip_cons (c : char) (s : str) :
  isspace c = false -> rstrip (c :: s) = c :: rstrip s.
Proof.
  intros E. unfold rstrip. simpl rev.
  rewrite (lstrip_snoc _ _ E), rev_app_distr. reflexivity.
Qed.

Lemma rstrip_rstrip (s : str) : rstrip (rstrip s) = rstrip s.
Proof. unfold rstrip. rewrite rev_involutive, lstrip_lstrip. reflexivity. Qed.

(** Stripping a stripped text changes nothing. *)
Lemma strip_strip (s : str) : strip (strip s) = strip s.
Proof.
  unfold strip. pose proof (lstrip_head s) as H.
  destruct (lstrip s) as [|c t]; [reflexivity|].
  rewrite (rstrip_cons _ _ H), (lstrip_fixed _ _ H), <- (rstrip_cons _ _ H).
  apply rstrip_rstrip.
Qed.

(** A text of white space only strips to the empty text. *)
Lemma strip_spaces (s : str) : forallb isspace s = true -> strip s = [].
Proof.
  intros H. unfold strip.
  replace (lstrip s) with (@nil char); [reflexivity|].
  induction s as [|c s IH]; simpl in *; [reflexivity|].
  apply andb_true_iff in H as [-> H]. exact (IH H).
Qed.

End PyFacts.

(** ** import_roots_from_morphology.py *)

Section ImportRootsFacts.
Import Py Db ImportRoots.

Lemma key_eqb_eq (k k' : key) : key_eqb k k' = true <-> k = k'.
Proof.
  destruct k as [[s a] w], k' as [[s' a'] w']; simpl.
  rewrite !andb_true_iff, !Z.eqb_eq.
  split; [intros [[-> ->] ->]; reflexivity | intros H; injection H; auto].
Qed.

Lemma key_eqb_refl (k : key) : key_eqb k k = true.
Proof. apply key_eqb_eq; reflexivity. Qed.

Lemma key_eqb_neq (k k' : key) : k <> k' -> key_eqb k k' = false.
Proof.
  intros H. destruct (key_eqb k k') eqn:E; [|reflexivity].
  apply key_eqb_eq in E. contradiction.
Qed.

Lemma contains_false (k : key) (d : dict) :
  contains k d = false <-> getitem k d = None.
Proof.
  induction d as [|[k' v] d IH]; simpl; [tauto|].
  destruct (key_eqb k k'); simpl; [split; discriminate | exact IH].
Qed.

Lemma getitem_setitem (k : key) (v : optstr) (d : dict) :
  getitem k (setitem k v d) = Some v.
Proof.
  induction d as [|[k' v'] d IH]; simpl.
  - rewrite key_eqb_refl; reflexivity.
  - destruct (key_eqb k k') eqn:E; simpl; rewrite E; [reflexivity | exact IH].
Qed.

Lemma getitem_setitem_other (k k' : key) (v : optstr) (d : dict) :
  k <> k' -> getitem k (setitem k' v d) = getitem k d.
Proof.
  intros Hk. induction d as [|[k2 v2] d IH]; simpl.
  - rewrite (key_eqb_neq _ _ Hk); reflexivity.
  - destruct (key_eqb k' k2) eqn:E; simpl.
    + apply key_eqb_eq in E; subst k2. rewrite (key_eqb_neq _ _ Hk); reflexivity.
    + destruct (key_eqb k k2); [reflexivity | exact IH].
Qed.

(** What [store] does to the entry of one key. *)
Lemma getitem_store (k : key) (d : dict) (tag : option (key * str)) :
  getitem k (store d tag) =
    match getitem k d, tag with
    | None, Some (k', root) =>
        if key_eqb k k' then Some (format_root (Some root)) else None
    | old, _ => old
    end.
Proof.
  destruct tag as [[k' root]|]; simpl; [|destruct (getitem k d); reflexivity].
  destruct (key_eqb k k') eqn:E.
  - apply key_eqb_eq in E; subst k'.
    destruct (contains k d) eqn:C.
    + destruct (getitem k d) eqn:G; [reflexivity|].
      apply contains_false in G; congruence.
    + rewrite getitem_setitem. apply contains_false in C. rewrite C; reflexivity.
  - assert (Hk : k <> k') by (intros ->; rewrite key_eqb_refl in E; discriminate).
    destruct (contains k' d).
    + destruct (getitem k d); reflexivity.
    + rewrite (getitem_setitem_other _ _ _ _ Hk). destruct (getitem k d); reflexivity.
Qed.

Section ParseFacts.
Variable int : str -> option Z.

(** A key that has its root keeps it to the end of the loop. *)
Lemma for_each_keeps (k : key) (v : optstr) (ls : list str) :
  forall d m, getitem k d = Some v ->
    for_each (loop_body int) ls d = Ok m -> getitem k m = Some v.
Proof.
  induction ls as [|l ls IH]; intros d m Hd H; simpl in H.
  - injection H as <-; exact Hd.
  - apply bind_Ok in H as (d' & Hb & H). unfold loop_body in Hb.
    apply bind_Ok in Hb as (tag & _ & Hs). injection Hs as <-.
    apply (IH (store d tag)); [|exact H].
    rewrite getitem_store, Hd; reflexivity.
Qed.

(** Lines without a ROOT tag for a key leave it absent. *)
Lemma for_each_absent (k : key) (ls : list str) :
  (forall l r, In l ls -> root_tag int l <> Ok (Some (k, r))) ->
  forall d m, getitem k d = None ->
    for_each (loop_body int) ls d = Ok m -> getitem k m = None.
Proof.
  induction ls as [|l ls IH]; intros Hls d m Hd H; simpl in H.
  - injection H as <-; exact Hd.
  - apply bind_Ok in H as (d' & Hb & H). unfold loop_body in Hb.
    apply bind_Ok in Hb as (tag & Ht & Hs). injection Hs as <-.
    apply (IH (fun l' r' Hin => Hls l' r' (or_intror Hin)) (store d tag));
      [|exact H].
    rewrite getitem_store, Hd. destruct tag as [[k' r]|]; [|reflexivity].
    destruct (key_eqb k k') eqn:E; [|reflexivity].
    apply key_eqb_eq in E; subst k'.
    exfalso. apply (Hls l r (or_introl eq_refl)). exact Ht.
Qed.

(** The loop ends without an exception when no line raises one. *)
Lemma for_each_returns (ls : list str) :
  (forall l, In l ls -> exists t, root_tag int l = Ok t) ->
  forall d, exists m, for_each (loop_body int) ls d = Ok m.
Proof.
  induction ls as [|l ls IH]; intros Hls d; simpl; [eauto|].
  destruct (Hls l (or_introl eq_refl)) as [t Ht].
  unfold loop_body at 1. rewrite Ht; simpl.
  apply IH. intros l' Hin; apply Hls; right; exact Hin.
Qed.

End ParseFacts.

(** C4. [format_root] of a root of [n >= 1] letters is the root with a
    dash between every two consecutive letters: [2n - 1] characters, the
    letters at the even places and the [n - 1] dashes at the odd ones;
    [format_root] of [None] or of the empty text is [None], not an empty
    text; and [format_root] of the three letters ra, hah, meem is
    ra-hah-meem. *)
Theorem format_root_dashes (r : str) :
  format_root None = None
  /\ format_root (Some []) = None
  /\ format_root (Some [ra; hah; meem]) = Some [ra; dash; hah; dash; meem]
  /\ (r <> [] ->
      exists s,
        format_root (Some r) = Some s
        /\ s <> []
        /\ List.length s = (List.length r + (List.length r - 1))%nat
        /\ (forall i, (i < List.length r)%nat ->
                      nth_error s (2 * i) = nth_error r i)
        /\ (forall i, (i + 1 < List.length r)%nat ->
                      nth_error s (2 * i + 1) = Some dash)).
Proof.
  repeat split; try reflexivity.
  intros Hr. destruct r as [|c r]; [congruence|].
  exists (join [dash] (chars (c :: r))). repeat split.
  - intros E. apply (f_equal (@List.length _)) in E.
    rewrite join_chars_length in E. simpl in E. lia.
  - rewrite join_chars_length. simpl. lia.
  - intros i Hi. apply join_chars_even, Hi.
  - intros i Hi. apply join_chars_odd, Hi.
Qed.

Lemma format_root_dashes_witness :
  exists s, format_root (Some [ra; hah; meem]) = Some s
            /\ List.length s = 5%nat.
Proof.
  destruct (format_root_dashes [ra; hah; meem]) as (_ & _ & _ & H).
  destruct H as (s & Hs & _ & Hl & _); [discriminate|].
  exists s. split; [exact Hs | exact Hl].
Defined.

(** C2. When several lines carry a ROOT tag for the same key, the
    mapping holds for that key the formatted root of the first of them
    in file order, whatever ROOT tags the later lines carry; this for
    every input none of whose lines raises.  For the two segments of
    1:1:1 with the roots ra-hah-meem and ain-lam-meem the mapping is
    ra-hah-meem at (1,1,1). *)
Theorem first_root_wins :
  (forall (int : str -> option Z) (data : str) (l1 l2 : list str)
          (line : str) (k : key) (r : str),
     lines data = l1 ++ line :: l2 ->
     (forall l, In l (lines data) -> exists t, root_tag int l = Ok t) ->
     root_tag int line = Ok (Some (k, r)) ->
     (forall l r', In l l1 -> root_tag int l <> Ok (Some (k, r'))) ->
     exists m, parse_morphology int data = Ok m
               /\ getitem k m = Some (format_root (Some r)))
  /\ parse_morphology Py.int two_segments
     = Ok [((1, 1, 1)%Z, Some [ra; dash; hah; dash; meem])].
Proof.
  split; [|reflexivity].
  intros int data l1 l2 line k r Hl Hok Hline Hfirst.
  destruct (for_each_returns int (lines data) Hok []) as [m Hm].
  exists m. split; [exact Hm|].
  unfold parse_morphology in Hm. rewrite Hl, for_each_app in Hm.
  apply bind_Ok in Hm as (d1 & H1 & Hm). simpl in Hm.
  apply bind_Ok in Hm as (d2 & H2 & Hm).
  assert (Hd1 : getitem k d1 = None)
    by (apply (for_each_absent int k l1 Hfirst [] d1 eq_refl H1)).
  apply (for_each_keeps int k _ l2 d2 m); [|exact Hm].
  unfold loop_body in H2. rewrite Hline in H2. simpl in H2.
  injection H2 as <-.
  pose proof (getitem_store k d1 (Some (k, r))) as G.
  rewrite Hd1, key_eqb_refl in G. exact G.
Qed.

Lemma first_root_wins_witness :
  exists m, parse_morphology Py.int two_segments = Ok m
            /\ getitem (1, 1, 1)%Z m
               = Some (format_root (Some [ra; hah; meem])).
Proof.
  apply (proj1 first_root_wins Py.int two_segments []
           [lit "1:1:1:2" ++ [tab] ++ lit "z" ++ [tab] ++ lit "N" ++ [tab]
              ++ lit "ROOT:" ++ [ain; lam; meem]]
           (lit "1:1:1:1" ++ [tab] ++ lit "x" ++ [tab] ++ lit "N" ++ [tab]
              ++ lit "ROOT:" ++ [ra; hah; meem] ++ lit "|LEM:y")).
  - reflexivity.
  - intros l [<-|[<-|[]]]; eexists; reflexivity.
  - reflexivity.
  - intros l r' [].
Defined.

Lemma root_tag_short (int : str -> option Z) (line : str) :
  (List.length (split tab line) < 4)%nat
  \/ (List.length (split colon (nth 0 (split tab line) [])) < 3)%nat ->
  root_tag int line = Ok None.
Proof.
  intros H. unfold root_tag.
  destruct (_ || _); [reflexivity|].
  destruct (Nat.ltb_spec (List.length (split tab line)) 4) as [|H4];
    [reflexivity|].
  destruct H as [H|H]; [lia|].
  apply Nat.ltb_lt in H. rewrite H. reflexivity.
Qed.

(** C3, as the code has it.  A line with fewer than four tab-separated
    fields, or whose location has fewer than three colon-separated
    components, is passed over: it leaves the mapping as it is, raises
    nothing, and the lines after it are parsed as if it were not there. *)
Theorem short_lines_skipped (int : str -> option Z) (line : str) :
  (List.length (split tab line) < 4)%nat
  \/ (List.length (split colon (nth 0 (split tab line) [])) < 3)%nat ->
  (forall d, loop_body int d line = Ok d)
  /\ (forall l1 l2 d,
        for_each (loop_body int) (l1 ++ line :: l2) d
        = for_each (loop_body int) (l1 ++ l2) d).
Proof.
  intros H.
  assert (Hb : forall d, loop_body int d line = Ok d)
    by (intros d; unfold loop_body; rewrite (root_tag_short int line H);
        reflexivity).
  split; [exact Hb|].
  intros l1 l2 d. rewrite !for_each_app.
  destruct (for_each (loop_body int) l1 d) as [d1|e]; simpl; [|reflexivity].
  rewrite Hb. reflexivity.
Qed.

Lemma short_lines_skipped_witness :
  loop_body Py.int [] (lit "1:1:1:1" ++ [tab] ++ lit "x") = Ok [].
Proof.
  apply (short_lines_skipped Py.int (lit "1:1:1:1" ++ [tab] ++ lit "x")).
  left. vm_compute. lia.
Defined.

(** C3, as it is stated, fails: a line of four fields whose location has
    four components, the first of them not a number, is not passed over;
    [int] raises ValueError and no mapping is returned. *)
Lemma malformed_location_raises :
  (4 <= List.length (split tab bad_location))%nat
  /\ (3 <= List.length (split colon (nth 0 (split tab bad_location) [])))%nat
  /\ parse_morphology Py.int bad_location = Raise ValueError
  /\ ~ (exists m, parse_morphology Py.int bad_location = Ok m).
Proof.
  repeat split; try (vm_compute; lia).
  intros [m H]. vm_compute in H. discriminate.
Qed.

(** Group 1 of the pattern holds at least one character. *)
Lemma re_search_root_nonempty (morphology root : str) :
  re_search_root morphology = Some root -> root <> [].
Proof.
  induction morphology as [|c rest IH]; simpl; [discriminate|].
  destruct (if (82 =? c)%N then _ else _) as [after|]; [|exact IH].
  destruct (until_pipe after) as [|d r]; [exact IH|].
  intros E; injection E as <-. discriminate.
Qed.

Lemma root_tag_nonempty (int : str -> option Z) (line : str) (k : key)
    (r : str) :
  root_tag int line = Ok (Some (k, r)) -> r <> [].
Proof.
  unfold root_tag.
  destruct (_ || _); [discriminate|].
  destruct (_ <? _)%nat; [discriminate|].
  destruct (_ <? _)%nat; [discriminate|].
  unfold to_int.
  destruct (int _); [|discriminate]. destruct (int _); [|discriminate].
  destruct (int _); [|discriminate]. simpl.
  destruct (re_search_root _) eqn:E; [|discriminate].
  intros H; injection H as _ <-. apply (re_search_root_nonempty _ _ E).
Qed.

Lemma format_root_dashed (r : str) : r <> [] -> dashed (format_root (Some r)).
Proof.
  intros Hr. exists r. destruct r as [|c r]; [congruence|].
  repeat split; [discriminate|].
  intros E. apply (f_equal (@List.length _)) in E.
  rewrite join_chars_length in E. simpl in E. lia.
Qed.

Lemma setitem_dashed (k : key) (v : optstr) (d : dict) :
  dashed v -> Forall (fun e => dashed (snd e)) d ->
  Forall (fun e => dashed (snd e)) (setitem k v d).
Proof.
  intros Hv. induction 1 as [|[k' v'] d Hx Hd IH]; simpl.
  - constructor; [exact Hv | constructor].
  - destruct (key_eqb k k'); constructor; auto.
Qed.

Lemma for_each_dashed (int : str -> option Z) (ls : list str) :
  forall d m, Forall (fun e => dashed (snd e)) d ->
    for_each (loop_body int) ls d = Ok m ->
    Forall (fun e => dashed (snd e)) m.
Proof.
  induction ls as [|l ls IH]; intros d m Hd H; simpl in H.
  - injection H as <-; exact Hd.
  - apply bind_Ok in H as (d' & Hb & H). unfold loop_body in Hb.
    apply bind_Ok in Hb as (tag & Ht & Hs). injection Hs as <-.
    apply (IH (store d tag)); [|exact H].
    destruct tag as [[k r]|]; simpl; [|exact Hd].
    destruct (contains k d); [exact Hd|].
    apply setitem_dashed; [|exact Hd].
    apply format_root_dashed, (root_tag_nonempty _ _ _ _ Ht).
Qed.

Lemma update_step_pending (conn : connection) (c : counters) (k : key)
    (root : optstr) :
  pending (fst (bound_step (conn, c) (k, root)))
  = map (fun r => if at_key k r then set_etymology root r else r)
        (pending conn).
Proof.
  destruct c as [u n]. unfold bound_step, execute_update.
  destruct (0 <? _)%Z; reflexivity.
Qed.

Lemma update_step_disk (conn : connection) (c : counters)
    (item : key * optstr) :
  disk (fst (bound_step (conn, c) item)) = disk conn.
Proof.
  destruct c as [u n], item as [k root]. unfold bound_step, execute_update.
  destruct (0 <? _)%Z; reflexivity.
Qed.

Lemma update_rooted (k : key) (s : str) (db p : table) :
  s <> [] -> Forall2 kept_or_rooted db p ->
  Forall2 kept_or_rooted db
    (map (fun r => if at_key k r then set_etymology (Some s) r else r) p).
Proof.
  intros Hs. induction 1 as [|old new db p Hr Hst IH]; simpl; constructor;
    [|exact IH].
  destruct (at_key k new); [|exact Hr].
  right. exists s. split; [exact Hs|].
  destruct Hr as [->|(s' & _ & ->)]; reflexivity.
Qed.

Lemma fold_update_rooted (db : table) (m : dict) :
  Forall (fun e => dashed (snd e)) m ->
  forall st, Forall2 kept_or_rooted db (pending (fst st)) ->
    Forall2 kept_or_rooted db (pending (fst (fold_left bound_step m st))).
Proof.
  induction 1 as [|[k v] m Hv Hm IH]; intros [conn c] Hst; cbn [fold_left];
    [exact Hst|].
  apply IH. rewrite update_step_pending. simpl in Hst, Hv.
  destruct Hv as (r & _ & -> & Hne).
  apply update_rooted; assumption.
Qed.

Lemma Forall2_kept (db : table) : Forall2 kept_or_rooted db db.
Proof. induction db; constructor; [left; reflexivity | assumption]. Qed.

(** The run on a mapping is the binding of all its entries and then
    the run of the bound statements. *)
Lemma update_database_bound (m : dict) (db : table) :
  update_database m db
  = bind (for_each (fun _ item => bind_item item) m tt)
         (fun _ => Ok (bound_run m db)).
Proof.
  unfold update_database, bound_run.
  change update_step
    with (fun st item => bind (bind_item item)
                              (fun _ => Ok (bound_step st item))).
  rewrite for_each_checked.
  destruct (for_each (fun _ item => bind_item item) m tt) as [[]|e];
    [|reflexivity].
  cbn [bind]. destruct (fold_left bound_step m (connect db, (0, 0)%Z)).
  reflexivity.
Qed.

Lemma update_database_ok (m : dict) (db : table) :
  forallb bindable m = true -> update_database m db = Ok (bound_run m db).
Proof.
  intros H. rewrite update_database_bound, (checks_pass bind_item m H).
  reflexivity.
Qed.

Lemma update_database_fails (m : dict) (db : table) :
  forallb bindable m = false -> exists e, update_database m db = Raise e.
Proof.
  intros H. rewrite update_database_bound.
  destruct (checks_fail bind_item m H) as [e ->]. exists e. reflexivity.
Qed.

Lemma table_after_update (m : dict) (db : table) :
  table_after db (update_database m db)
  = if forallb bindable m then fst (bound_run m db) else db.
Proof.
  destruct (forallb bindable m) eqn:B.
  - rewrite (update_database_ok m db B). cbn.
    destruct (bound_run m db); reflexivity.
  - destruct (update_database_fails m db B) as [e ->]. reflexivity.
Qed.

Lemma bound_run_rooted (m : dict) (db : table) :
  Forall (fun e => dashed (snd e)) m ->
  Forall2 kept_or_rooted db (fst (bound_run m db)).
Proof.
  intros Hm. unfold bound_run.
  pose proof (fold_update_rooted db m Hm (connect db, (0, 0)%Z)
                (Forall2_kept db)) as F.
  destruct (fold_left bound_step m (connect db, (0, 0)%Z)) as [conn c].
  exact F.
Qed.

(** C9. Every value of the mapping that [parse_morphology] returns is a
    non-empty text, a non-empty root with dashes between its letters; so
    a run of [update_database] on it, whether it returns or raises,
    leaves each row of the table as it was or with a non-empty
    etymology: no NULL and no empty text is written. *)
Theorem importer_never_clears (int : str -> option Z) (data : str) (m : dict) :
  parse_morphology int data = Ok m ->
  Forall (fun e => dashed (snd e)) m
  /\ forall db,
       Forall2 kept_or_rooted db (table_after db (update_database m db)).
Proof.
  intros H.
  assert (Hm : Forall (fun e => dashed (snd e)) m)
    by (apply (for_each_dashed int (lines data) [] m); [constructor | exact H]).
  split; [exact Hm|].
  intros db. rewrite table_after_update.
  destruct (forallb bindable m); [apply bound_run_rooted, Hm | apply Forall2_kept].
Qed.

Lemma importer_never_clears_witness :
  Forall2 kept_or_rooted one_word
    (table_after one_word
       (update_database
          [((1, 1, 1)%Z, Some [ra; dash; hah; dash; meem])] one_word)).
Proof.
  apply (importer_never_clears Py.int two_segments). reflexivity.
Defined.

Lemma at_key_set_etymology (k : key) (v : optstr) (r : word_translation) :
  at_key k (set_etymology v r) = at_key k r.
Proof. destruct k as [[s a] w]; reflexivity. Qed.

Lemma existsb_update (k k' : key) (v : optstr) (t : table) :
  existsb (at_key k)
    (map (fun r => if at_key k' r then set_etymology v r else r) t)
  = existsb (at_key k) t.
Proof.
  induction t as [|r t IH]; simpl; [reflexivity|].
  rewrite IH. destruct (at_key k' r); [rewrite at_key_set_etymology|];
    reflexivity.
Qed.

Lemma rowcount_positive (cond : word_translation -> bool) (t : table) :
  (0 <? Z.of_nat (List.length (filter cond t)))%Z = existsb cond t.
Proof.
  induction t as [|r t IH]; simpl; [reflexivity|].
  destruct (cond r); simpl; [|exact IH].
  apply Z.ltb_lt. lia.
Qed.

Lemma update_none (cond : word_translation -> bool) (v : optstr) (t : table) :
  existsb cond t = false ->
  map (fun r => if cond r then set_etymology v r else r) t = t.
Proof.
  induction t as [|r t IH]; simpl; [reflexivity|].
  destruct (cond r); simpl; [discriminate|].
  intros H; rewrite (IH H); reflexivity.
Qed.

(** The counters at the end of the loop, from any state whose rows have
    the coordinates of the rows of [db]. *)
Lemma fold_update_counts (db : table) (m : dict) :
  forall conn u n,
    (forall k, existsb (at_key k) (pending conn) = existsb (at_key k) db) ->
    snd (fold_left bound_step m (conn, (u, n)))
    = ((u + Z.of_nat (List.length
              (filter (fun e => existsb (at_key (fst e)) db) m)))%Z,
       (n + Z.of_nat (List.length
              (filter (fun e => negb (existsb (at_key (fst e)) db)) m)))%Z).
Proof.
  induction m as [|[k v] m IH]; intros conn u n Hc; simpl.
  - rewrite !Z.add_0_r; reflexivity.
  - unfold execute_update. rewrite rowcount_positive, Hc.
    destruct (existsb (at_key k) db) eqn:E; simpl negb; cbv iota;
      rewrite IH by (intros k'; simpl; rewrite existsb_update; apply Hc);
      cbn [List.length]; f_equal; lia.
Qed.

Lemma bound_run_counters (m : dict) (db : table) :
  snd (bound_run m db)
  = (Z.of_nat (List.length
       (filter (fun e => existsb (at_key (fst e)) db) m)),
     Z.of_nat (List.length
       (filter (fun e => negb (existsb (at_key (fst e)) db)) m))).
Proof.
  unfold bound_run.
  pose proof (fold_update_counts db m (connect db) 0%Z 0%Z
                (fun k => eq_refl)) as F.
  destruct (fold_left bound_step m (connect db, (0, 0)%Z)) as [conn c].
  exact F.
Qed.

Lemma update_step_bound (st : connection * counters) (item : key * optstr) :
  bindable item = true -> update_step st item = Ok (bound_step st item).
Proof.
  unfold bindable, update_step.
  destruct (bind_item item) as [[]|e]; [reflexivity | discriminate].
Qed.

(** C5, as it is stated, fails for a key outside the signed 64 bits of
    an SQLite INTEGER: such a key matches no row, yet the statement
    cannot be executed, OverflowError ends the run and no counter is
    returned. *)
Lemma overflowing_key_raises :
  existsb (at_key (2 ^ 63, 1, 1)%Z) one_word = false
  /\ update_database beyond_int64 one_word = Raise OverflowError
  /\ ~ (exists db' u n,
          update_database beyond_int64 one_word = Ok (db', (u, n))).
Proof.
  split; [reflexivity|]. split; [reflexivity|].
  intros (db' & u & n & H). vm_compute in H. discriminate.
Qed.

(** C5, as the code has it.  For an entry whose parameters can be bound
    (coordinates within the signed 64 bits, an encodable root): if its
    key matches no row, the turn of the loop adds one to [not_found],
    nothing to [updated] and leaves the table as it is; if its key
    matches a row, it adds one to [updated] and nothing to [not_found].
    For a mapping of such entries the run returns, [updated] counting
    the entries whose key is in the table and [not_found] the others. *)
Theorem update_database_counts (word_roots : dict) (db : table) :
  (forall conn u n k root,
     bindable (k, root) = true ->
     existsb (at_key k) (pending conn) = false ->
     update_step (conn, (u, n)) (k, root) = Ok (conn, (u, (n + 1)%Z)))
  /\ (forall conn u n k root,
        bindable (k, root) = true ->
        existsb (at_key k) (pending conn) = true ->
        exists conn',
          update_step (conn, (u, n)) (k, root) = Ok (conn', ((u + 1)%Z, n)))
  /\ (forallb bindable word_roots = true ->
      exists db',
        update_database word_roots db
        = Ok (db',
              (Z.of_nat (List.length
                 (filter (fun e => existsb (at_key (fst e)) db) word_roots)),
               Z.of_nat (List.length
                 (filter (fun e => negb (existsb (at_key (fst e)) db))
                         word_roots))))).
Proof.
  split; [|split].
  - intros conn u n k root B H. rewrite (update_step_bound _ _ B).
    unfold bound_step, execute_update.
    rewrite rowcount_positive, H, (update_none _ _ _ H).
    destruct conn; reflexivity.
  - intros conn u n k root B H. rewrite (update_step_bound _ _ B).
    unfold bound_step, execute_update.
    rewrite rowcount_positive, H. eexists. reflexivity.
  - intros B. rewrite (update_database_ok _ db B).
    pose proof (bound_run_counters word_roots db) as F.
    destruct (bound_run word_roots db) as [db' c]. cbn [snd] in F.
    exists db'. rewrite F. reflexivity.
Qed.

Lemma update_database_counts_witness :
  update_step (connect one_word, (0, 0)%Z) ((2, 1, 1)%Z, Some [ra])
  = Ok (connect one_word, (0, 1)%Z)
  /\ (exists conn',
        update_step (connect one_word, (0, 0)%Z) ((1, 1, 1)%Z, Some [ra])
        = Ok (conn', (1, 0)%Z))
  /\ exists db',
       update_database [((2, 1, 1)%Z, Some [ra]); ((1, 1, 1)%Z, Some [ra])]
         one_word
       = Ok (db', (1, 1)%Z).
Proof.
  destruct (update_database_counts
              [((2, 1, 1)%Z, Some [ra]); ((1, 1, 1)%Z, Some [ra])] one_word)
    as (Hnone & Hsome & Hrun).
  split; [|split].
  - apply (Hnone (connect one_word) 0%Z 0%Z (2, 1, 1)%Z (Some [ra]));
      reflexivity.
  - apply (Hsome (connect one_word) 0%Z 0%Z (1, 1, 1)%Z (Some [ra]));
      reflexivity.
  - apply Hrun. reflexivity.
Defined.

End ImportRootsFacts.

(** ** import_roots_from_morphology.py: the parser and the run as a whole *)

Section ImportRootsRuns.
Import Py Db ImportRoots.

Lemma strip_prefix_app (p s t : str) :
  strip_prefix p s = Some t -> s = p ++ t.
Proof.
  revert s; induction p as [|a p IH]; intros s; simpl.
  - intros H; injection H as ->; reflexivity.
  - destruct s as [|c s]; [discriminate|].
    destruct (N.eqb_spec a c) as [->|]; [|discriminate].
    intros H. rewrite (IH _ H). reflexivity.
Qed.

Lemma until_pipe_split (s : str) :
  exists post,
    s = until_pipe s ++ post
    /\ (post = [] \/ exists q, post = pipe :: q)
    /\ ~ In pipe (until_pipe s).
Proof.
  induction s as [|c s (post & Hs & Hp & Hn)]; simpl.
  - exists []. repeat split; [left; reflexivity | intros []].
  - destruct (N.eqb_spec c pipe) as [->|Hc].
    + exists (pipe :: s). repeat split; [right; eauto | intros []].
    + exists post. repeat split; [simpl; congruence | exact Hp|].
      intros [E|E]; [congruence | exact (Hn E)].
Qed.

(** The group that the pattern captures: at least one character, none
    of them a [|], standing in the field right after a [ROOT:] and
    running to the next [|] or to the end of the field. *)
Theorem root_capture (morphology root : str) :
  re_search_root morphology = Some root ->
  root <> []
  /\ ~ In pipe root
  /\ exists pre post,
       morphology = pre ++ lit "ROOT:" ++ root ++ post
       /\ (post = [] \/ exists q, post = pipe :: q).
Proof.
  induction morphology as [|c rest IH]; [discriminate|].
  assert (Hrest : re_search_root rest = Some root ->
            root <> [] /\ ~ In pipe root
            /\ exists pre post,
                 c :: rest = pre ++ lit "ROOT:" ++ root ++ post
                 /\ (post = [] \/ exists q, post = pipe :: q)).
  { intros H. destruct (IH H) as (Hne & Hp & pre & post & E & Hpost).
    repeat split; [exact Hne | exact Hp|].
    exists (c :: pre), post. rewrite E. split; [reflexivity | exact Hpost]. }
  cbn [re_search_root].
  destruct (strip_prefix (lit "ROOT:") (c :: rest)) as [after|] eqn:P;
    [|exact Hrest].
  destruct (until_pipe_split after) as (post & Ha & Hpost & Hn).
  destruct (until_pipe after) as [|d r] eqn:U; [exact Hrest|].
  intros H; injection H as <-.
  repeat split; [discriminate | exact Hn|].
  exists [], post. split; [|exact Hpost].
  rewrite (strip_prefix_app _ _ _ P), Ha at 1. reflexivity.
Qed.

Lemma root_capture_witness :
  [ra; hah; meem] <> [] /\ ~ In pipe [ra; hah; meem].
Proof.
  destruct (root_capture (lit "POS:N|ROOT:" ++ [ra; hah; meem] ++ lit "|LEM:x")
              [ra; hah; meem] eq_refl) as (H1 & H2 & _).
  split; [exact H1 | exact H2].
Defined.

Section ParseRuns.
Variable int : str -> option Z.

Lemma for_each_member (k : key) (ls : list str) :
  forall d m,
    for_each (loop_body int) ls d = Ok m ->
    (getitem k m <> None <->
     getitem k d <> None
     \/ exists line r, In line ls /\ root_tag int line = Ok (Some (k, r))).
Proof.
  induction ls as [|l ls IH]; intros d m H; simpl in H.
  - injection H as <-. split; [tauto|].
    intros [H|(line & r & [] & _)]; exact H.
  - apply bind_Ok in H as (d' & Hb & H). unfold loop_body in Hb.
    apply bind_Ok in Hb as (tag & Ht & Hs). injection Hs as <-.
    rewrite (IH _ _ H), getitem_store.
    split.
    + intros [Hd|(line & r & Hin & Hl)].
      * destruct (getitem k d) eqn:G; [left; discriminate|].
        destruct tag as [[k' r]|]; [|congruence].
        destruct (key_eqb k k') eqn:E; [|congruence].
        apply key_eqb_eq in E; subst k'.
        right. exists l, r. split; [left; reflexivity | exact Ht].
      * right. exists line, r. split; [right; exact Hin | exact Hl].
    + intros [Hd|(line & r & [<-|Hin] & Hl)].
      * left. destruct (getitem k d); [discriminate | congruence].
      * left. rewrite Ht in Hl. injection Hl as ->.
        rewrite key_eqb_refl. destruct (getitem k d); discriminate.
      * right. exists line, r. split; assumption.
Qed.

(** The mapping that [parse_morphology] returns has a root for a word
    exactly when some line of the input carries a ROOT tag for it. *)
Theorem parsed_keys (data : str) (m : dict) (k : key) :
  parse_morphology int data = Ok m ->
  (getitem k m <> None <->
   exists line r, In line (lines data)
                  /\ root_tag int line = Ok (Some (k, r))).
Proof.
  intros H. rewrite (for_each_member k _ _ _ H). simpl.
  split; [intros [F|E]; [congruence | exact E] | intros E; right; exact E].
Qed.

(** White space around the input is not part of it, and an input of
    white space only gives the empty mapping, without an exception. *)
Theorem parse_ignores_outer_space (data : str) :
  parse_morphology int (strip data) = parse_morphology int data
  /\ (forallb isspace data = true -> parse_morphology int data = Ok []).
Proof.
  split.
  - unfold parse_morphology, lines. rewrite strip_strip. reflexivity.
  - intros H. unfold parse_morphology, lines. rewrite (strip_spaces _ H).
    reflexivity.
Qed.

Lemma root_tag_raises (line : str) (e : exn) :
  root_tag int line = Raise e -> e = ValueError.
Proof.
  unfold root_tag, to_int.
  destruct (_ || _); [discriminate|].
  destruct (_ <? _)%nat; [discriminate|].
  destruct (_ <? _)%nat; [discriminate|].
  destruct (int _); [|simpl; congruence].
  destruct (int _); [|simpl; congruence].
  destruct (int _); [|simpl; congruence].
  simpl. destruct (re_search_root _); discriminate.
Qed.

Lemma for_each_raises (ls : list str) (e : exn) :
  forall d,
    for_each (loop_body int) ls d = Raise e <->
    exists line, In line ls /\ root_tag int line = Raise e.
Proof.
  induction ls as [|l ls IH]; intros d; simpl.
  - split; [discriminate | intros (line & [] & _)].
  - unfold loop_body at 1. destruct (root_tag int l) as [tag|e'] eqn:T; simpl.
    + rewrite IH. split.
      * intros (line & Hin & Hl). exists line. split; [right|]; assumption.
      * intros (line & [<-|Hin] & Hl); [congruence|]. exists line. split; assumption.
    + split.
      * intros H. exists l. split; [left; reflexivity | congruence].
      * intros (line & Hin & Hl).
        rewrite (root_tag_raises _ _ T).
        rewrite (root_tag_raises _ _ Hl). reflexivity.
Qed.

(** One line is enough to lose the whole mapping: [parse_morphology]
    raises exactly when some line of the input does, that is a line
    that is not passed over and has a location component that [int]
    refuses, and the exception is then ValueError. *)
Theorem parse_raises (data : str) (e : exn) :
  parse_morphology int data = Raise e <->
  e = ValueError
  /\ exists line, In line (lines data)
                  /\ root_tag int line = Raise ValueError.
Proof.
  unfold parse_morphology. rewrite for_each_raises. split.
  - intros (line & Hin & Hl). pose proof (root_tag_raises _ _ Hl) as ->.
    split; [reflexivity|]. exists line. split; assumption.
  - intros (-> & H). exact H.
Qed.

End ParseRuns.

Lemma parse_raises_witness :
  parse_morphology Py.int bad_location = Raise ValueError.
Proof.
  apply (proj2 (parse_raises Py.int bad_location ValueError)).
  split; [reflexivity|]. exists bad_location.
  split; [left; reflexivity | reflexivity].
Defined.

Lemma parsed_keys_witness :
  getitem (1, 1, 1)%Z [((1, 1, 1)%Z, Some [ra; dash; hah; dash; meem])]
  <> None.
Proof.
  apply (parsed_keys Py.int two_segments _ (1, 1, 1)%Z eq_refl).
  exists (lit "1:1:1:2" ++ [tab] ++ lit "z" ++ [tab] ++ lit "N" ++ [tab]
            ++ lit "ROOT:" ++ [ain; lam; meem]), [ain; lam; meem].
  split; [right; left; reflexivity | reflexivity].
Defined.

Lemma parse_ignores_outer_space_witness :
  parse_morphology Py.int [newline; 32%N; tab] = Ok [].
Proof.
  apply (parse_ignores_outer_space Py.int [newline; 32%N; tab]). reflexivity.
Defined.

Lemma at_key_row_key (k : key) (r : word_translation) :
  at_key k r = key_eqb (row_key r) k.
Proof. destruct k as [[s a] w]; reflexivity. Qed.

Lemma getitem_not_in (k : key) (d : dict) :
  ~ In k (map fst d) -> getitem k d = None.
Proof.
  induction d as [|[k' v] d IH]; simpl; [reflexivity|].
  intros H. rewrite key_eqb_neq by (intros ->; apply H; left; reflexivity).
  apply IH. intros Hin; apply H; right; exact Hin.
Qed.

Lemma getitem_in (k : key) (d : dict) :
  In k (map fst d) -> getitem k d <> None.
Proof.
  induction d as [|[k' v] d IH]; simpl; [intros []|].
  destruct (key_eqb k k') eqn:E; [discriminate|].
  intros [->|H]; [rewrite key_eqb_refl in E; discriminate | exact (IH H)].
Qed.

Lemma keys_setitem (k : key) (v : optstr) (d : dict) :
  contains k d = false -> map fst (setitem k v d) = map fst d ++ [k].
Proof.
  induction d as [|[k' v'] d IH]; simpl; [reflexivity|].
  destruct (key_eqb k k'); simpl; [discriminate|].
  intros H; rewrite (IH H); reflexivity.
Qed.

Lemma store_nodup (d : dict) (tag : option (key * str)) :
  NoDup (map fst d) -> NoDup (map fst (store d tag)).
Proof.
  intros Hd. destruct tag as [[k r]|]; simpl; [|exact Hd].
  destruct (contains k d) eqn:C; [exact Hd|].
  rewrite (keys_setitem _ _ _ C).
  apply NoDup_app; [exact Hd | repeat constructor; intros []|].
  intros x Hx [<-|[]]. apply contains_false in C.
  exact (getitem_in _ _ Hx C).
Qed.

(** The keys of a parsed mapping are pairwise distinct, as those of a
    dict are. *)
Lemma parse_keys_nodup (int : str -> option Z) (data : str) (m : dict) :
  parse_morphology int data = Ok m -> NoDup (map fst m).
Proof.
  unfold parse_morphology.
  assert (G : forall ls d, NoDup (map fst d) ->
            for_each (loop_body int) ls d = Ok m -> NoDup (map fst m)).
  { induction ls as [|l ls IH]; intros d Hd H; simpl in H.
    - injection H as <-; exact Hd.
    - apply bind_Ok in H as (d' & Hb & H). unfold loop_body in Hb.
      apply bind_Ok in Hb as (tag & _ & Hs). injection Hs as <-.
      apply (IH _ (store_nodup d tag Hd) H). }
  apply G. constructor.
Qed.

(** What the statements of one run make of a row. *)
Lemma fold_update_pending (m : dict) :
  forall st,
    pending (fst (fold_left bound_step m st))
    = map (fun r => fold_left
                      (fun r e => if at_key (fst e) r
                                  then set_etymology (snd e) r else r) m r)
          (pending (fst st)).
Proof.
  induction m as [|[k v] m IH]; intros [conn c]; cbn [fold_left].
  - simpl. symmetry. apply map_id.
  - rewrite IH, update_step_pending, map_map. reflexivity.
Qed.

Lemma fold_row_columns (m : dict) :
  forall r,
    set_etymology None
      (fold_left (fun r e => if at_key (fst e) r
                             then set_etymology (snd e) r else r) m r)
    = set_etymology None r.
Proof.
  induction m as [|[k v] m IH]; intros r; simpl; [reflexivity|].
  rewrite IH. destruct (at_key k r); reflexivity.
Qed.

Lemma fold_row_lookup (m : dict) :
  NoDup (map fst m) ->
  forall r,
    fold_left (fun r e => if at_key (fst e) r
                          then set_etymology (snd e) r else r) m r
    = with_root_of m r.
Proof.
  induction m as [|[k v] m IH]; intros Hm r; [reflexivity|].
  simpl in Hm. apply NoDup_cons_iff in Hm as [Hk Hm].
  cbn [fold_left fst snd]. rewrite (IH Hm). unfold with_root_of. cbn [getitem].
  rewrite at_key_row_key.
  destruct (key_eqb (row_key r) k) eqn:E; [|reflexivity].
  apply key_eqb_eq in E.
  change (row_key (set_etymology v r)) with (row_key r).
  rewrite E, (getitem_not_in _ _ Hk). reflexivity.
Qed.

Lemma update_database_table (m : dict) (db : table) :
  fst (bound_run m db)
  = map (fun r => fold_left
                    (fun r e => if at_key (fst e) r
                                then set_etymology (snd e) r else r) m r) db.
Proof.
  unfold bound_run.
  pose proof (fold_update_pending m (connect db, (0, 0)%Z)) as H.
  destruct (fold_left bound_step m (connect db, (0, 0)%Z)) as [conn c].
  exact H.
Qed.

Lemma filter_split_length {A} (f : A -> bool) (l : list A) :
  (List.length (filter f l) + List.length (filter (fun x => negb (f x)) l)
   = List.length l)%nat.
Proof.
  induction l as [|x l IH]; simpl; [reflexivity|].
  destruct (f x); simpl; lia.
Qed.

Lemma update_database_returns (m : dict) (db : table)
    (run : table * counters) :
  update_database m db = Ok run ->
  forallb bindable m = true /\ run = bound_run m db.
Proof.
  intros H. destruct (forallb bindable m) eqn:B.
  - rewrite (update_database_ok m db B) in H. injection H as <-.
    split; reflexivity.
  - destruct (update_database_fails m db B) as [e He]. congruence.
Qed.

(** A run of [update_database], whether it returns or raises, changes
    no column but etymology and neither adds nor removes a row,
    whatever the mapping. *)
Theorem update_keeps_other_columns (word_roots : dict) (db : table) :
  map (set_etymology None) (table_after db (update_database word_roots db))
  = map (set_etymology None) db
  /\ List.length (table_after db (update_database word_roots db))
     = List.length db.
Proof.
  rewrite table_after_update.
  destruct (forallb bindable word_roots); [|split; reflexivity].
  rewrite update_database_table. split.
  - rewrite map_map. apply map_ext. intros r. apply fold_row_columns.
  - apply length_map.
Qed.

Lemma counters_sum (m : dict) (db : table) :
  (fst (snd (bound_run m db)) + snd (snd (bound_run m db)))%Z
  = Z.of_nat (List.length m).
Proof.
  rewrite bound_run_counters. cbn [fst snd].
  rewrite <- (filter_split_length (fun e => existsb (at_key (fst e)) db) m).
  lia.
Qed.

(** [update_database] returns exactly when the parameters of every
    entry can be bound (coordinates within the signed 64 bits, an
    encodable root), and then every entry is counted once: the two
    counters add up to the size of the mapping, however many rows an
    entry reaches. *)
Theorem counters_add_up (word_roots : dict) (db : table) :
  (forallb bindable word_roots = true <->
   exists run, update_database word_roots db = Ok run)
  /\ forall db' u n,
       update_database word_roots db = Ok (db', (u, n)) ->
       (u + n)%Z = Z.of_nat (List.length word_roots).
Proof.
  split; [split|].
  - intros B. exists (bound_run word_roots db).
    apply update_database_ok, B.
  - intros [run H]. apply (update_database_returns _ _ _ H).
  - intros db' u n H. apply update_database_returns in H as [_ H].
    pose proof (counters_sum word_roots db) as C. rewrite <- H in C.
    exact C.
Qed.

Lemma counters_add_up_witness :
  (1 + 1)%Z
  = Z.of_nat (List.length
                [((2, 1, 1)%Z, Some [ra]); ((1, 1, 1)%Z, Some [ra])]).
Proof.
  apply (proj2 (counters_add_up
                  [((2, 1, 1)%Z, Some [ra]); ((1, 1, 1)%Z, Some [ra])]
                  one_word)
           (map (set_etymology (Some [ra])) one_word)).
  reflexivity.
Defined.

Lemma update_database_lookup (m : dict) (db : table) :
  NoDup (map fst m) ->
  fst (bound_run m db) = map (with_root_of m) db.
Proof.
  intros H. rewrite update_database_table. apply map_ext.
  intros r. apply (fold_row_lookup _ H).
Qed.

(** For a dict whose entries can all be bound the run returns, and in
    the table it leaves a row whose coordinates are a key of the dict
    holds the value of that key, every other row being as it was.  When
    an entry cannot be bound the run raises and writes no row at all. *)
Theorem update_writes_mapping (word_roots : dict) (db : table) :
  NoDup (map fst word_roots) ->
  (forallb bindable word_roots = true ->
   exists count,
     update_database word_roots db
     = Ok (map (with_root_of word_roots) db, count))
  /\ (forallb bindable word_roots = false ->
      exists e, update_database word_roots db = Raise e).
Proof.
  intros H. split; intros B.
  - rewrite (update_database_ok _ db B).
    pose proof (update_database_lookup word_roots db H) as L.
    destruct (bound_run word_roots db) as [db' c]. cbn [fst] in L.
    exists c. rewrite L. reflexivity.
  - apply update_database_fails, B.
Qed.

Lemma update_writes_mapping_witness :
  (exists count,
     update_database [((1, 1, 1)%Z, Some [ra; dash; hah; dash; meem])]
       one_word
     = Ok (map (with_root_of [((1, 1, 1)%Z, Some [ra; dash; hah; dash; meem])])
               one_word, count))
  /\ exists e, update_database beyond_int64 one_word = Raise e.
Proof.
  split.
  - apply (update_writes_mapping
             [((1, 1, 1)%Z, Some [ra; dash; hah; dash; meem])] one_word).
    + repeat constructor. intros [].
    + reflexivity.
  - apply (update_writes_mapping beyond_int64 one_word).
    + repeat constructor. intros [].
    + reflexivity.
Defined.

Lemma with_root_of_twice (m : dict) (r : word_translation) :
  with_root_of m (with_root_of m r) = with_root_of m r.
Proof.
  unfold with_root_of.
  destruct (getitem (row_key r) m) as [v|] eqn:G.
  - change (row_key (set_etymology v r)) with (row_key r). rewrite G.
    reflexivity.
  - rewrite G. reflexivity.
Qed.

Lemma existsb_with_root_of (k : key) (m : dict) (t : table) :
  existsb (at_key k) (map (with_root_of m) t) = existsb (at_key k) t.
Proof.
  induction t as [|r t IH]; simpl; [reflexivity|].
  rewrite IH. f_equal. unfold with_root_of.
  destruct (getitem (row_key r) m); [apply at_key_set_etymology | reflexivity].
Qed.

Lemma bound_run_again (m : dict) (db : table) :
  NoDup (map fst m) ->
  bound_run m (fst (bound_run m db)) = bound_run m db.
Proof.
  intros H.
  rewrite (surjective_pairing (bound_run m db)) at 2.
  rewrite (surjective_pairing (bound_run m (fst (bound_run m db)))).
  f_equal.
  - rewrite !(update_database_lookup _ _ H), map_map.
    apply map_ext. intros r. apply with_root_of_twice.
  - rewrite !bound_run_counters, (update_database_lookup _ _ H).
    f_equal; f_equal; f_equal; apply filter_ext; intros e;
      rewrite existsb_with_root_of; reflexivity.
Qed.

(** The importer can be run again: a second run of [update_database]
    with the same dict, on the table that the first run has left, has
    the outcome of the first: the same table and the same two counters,
    or the same exception. *)
Theorem update_database_again (word_roots : dict) (db : table) :
  NoDup (map fst word_roots) ->
  update_database word_roots
    (table_after db (update_database word_roots db))
  = update_database word_roots db.
Proof.
  intros H. destruct (forallb bindable word_roots) eqn:B.
  - rewrite !(update_database_ok _ _ B). cbn [table_after].
    pose proof (bound_run_again word_roots db H) as A.
    destruct (bound_run word_roots db) as [db' c]. cbn [fst] in A.
    rewrite A. reflexivity.
  - destruct (update_database_fails word_roots db B) as [e He].
    rewrite He. exact He.
Qed.

Lemma update_database_again_witness :
  update_database [((1, 1, 1)%Z, Some [ra; dash; hah; dash; meem])]
    (table_after one_word
       (update_database
          [((1, 1, 1)%Z, Some [ra; dash; hah; dash; meem])] one_word))
  = update_database [((1, 1, 1)%Z, Some [ra; dash; hah; dash; meem])]
      one_word.
Proof.
  apply update_database_again. repeat constructor. intros [].
Defined.

Lemma rooted_stats (db db' : table) :
  Forall2 kept_or_rooted db db' ->
  List.length db' = List.length db
  /\ (List.length (filter has_etymology db)
      <= List.length (filter has_etymology db'))%nat.
Proof.
  induction 1 as [|old new db db' Hr _ [IHl IHc]]; simpl; [split; lia|].
  split; [lia|].
  destruct (has_etymology old) eqn:O.
  - assert (N : has_etymology new = true).
    { destruct Hr as [->|(s & Hs & ->)]; [exact O|].
      destruct s; [congruence | reflexivity]. }
    rewrite N. simpl. lia.
  - destruct (has_etymology new); simpl; lia.
Qed.

(** The two numbers of [get_stats] before and after a run on a parsed
    mapping, whether the run returns or raises: the total is the same
    and the number of rows with an etymology has not gone down. *)
Theorem coverage_never_drops (int : str -> option Z) (data : str) (m : dict)
    (db : table) :
  parse_morphology int data = Ok m ->
  fst (get_stats (table_after db (update_database m db))) = fst (get_stats db)
  /\ (snd (get_stats db)
      <= snd (get_stats (table_after db (update_database m db))))%Z.
Proof.
  intros H.
  assert (Hm : Forall (fun e => dashed (snd e)) m)
    by (apply (for_each_dashed int (lines data) [] m); [constructor | exact H]).
  assert (F : Forall2 kept_or_rooted db
                (table_after db (update_database m db)))
    by (rewrite table_after_update; destruct (forallb bindable m);
        [apply bound_run_rooted, Hm | apply Forall2_kept]).
  destruct (rooted_stats _ _ F) as [Hl Hc].
  unfold get_stats; cbn [fst snd]. split; lia.
Qed.

Lemma coverage_never_drops_witness :
  (snd (get_stats one_word)
   <= snd (get_stats
             (table_after one_word
                (update_database
                   [((1, 1, 1)%Z, Some [ra; dash; hah; dash; meem])]
                   one_word))))%Z.
Proof.
  apply (coverage_never_drops Py.int two_segments). reflexivity.
Defined.

(** [main] as a whole.  On a table without rows it raises
    ZeroDivisionError at its first progress line, before the download is
    looked at.  On a table with rows it raises what the parser raises;
    when the parser returns a mapping it raises what [update_database]
    raises on it, and when that returns it returns too: the table is
    the one [update_database] has left, the counters of the report are
    its counters and add up to the number of extracted words, and the
    total is the one before the run. *)
Theorem main_runs (int : str -> option Z) (data : str) (db : table) :
  main int data [] = Raise ZeroDivisionError
  /\ (db <> [] -> forall e,
        parse_morphology int data = Raise e -> main int data db = Raise e)
  /\ (db <> [] -> forall m e,
        parse_morphology int data = Ok m ->
        update_database m db = Raise e ->
        main int data db = Raise e)
  /\ (db <> [] -> forall m db' u n,
        parse_morphology int data = Ok m ->
        update_database m db = Ok (db', (u, n)) ->
        exists rep,
          main int data db = Ok (db', rep)
          /\ extracted rep = Z.of_nat (List.length m)
          /\ updated rep = u /\ not_found rep = n
          /\ (u + n)%Z = extracted rep
          /\ fst (after rep) = fst (before rep)).
Proof.
  assert (Hp : forall (t : table) w, t <> [] ->
            percent w (Z.of_nat (List.length t))
            = Ok (inject_Z (100 * w) / inject_Z (Z.of_nat (List.length t)))%Q).
  { intros t w Ht. unfold percent.
    destruct (Z.eqb_spec (Z.of_nat (List.length t)) 0) as [E|]; [|reflexivity].
    destruct t; [congruence | simpl in E; lia]. }
  split; [reflexivity|]. split; [|split].
  - intros Hdb e He. unfold main, get_stats.
    rewrite (Hp db _ Hdb), He. reflexivity.
  - intros Hdb m e Hm He. unfold main, get_stats.
    rewrite (Hp db _ Hdb), Hm. cbn [bind]. rewrite He. reflexivity.
  - intros Hdb m db' u n Hm Hu. unfold main, get_stats.
    rewrite (Hp db _ Hdb), Hm. cbn [bind]. rewrite Hu. cbn [bind].
    apply update_database_returns in Hu as [_ Hu].
    pose proof (counters_sum m db) as Hc.
    pose proof (update_database_table m db) as Ht.
    rewrite <- Hu in Hc, Ht. cbn [fst snd] in Hc, Ht.
    assert (Hl : List.length db' = List.length db)
      by (rewrite Ht; apply length_map).
    assert (Hdb' : db' <> [])
      by (destruct db'; [destruct db; [congruence | discriminate]
                        | discriminate]).
    rewrite (Hp db' _ Hdb'). cbn [bind].
    eexists. split; [reflexivity|]. cbn.
    repeat split; [exact Hc | rewrite Hl; reflexivity].
Qed.

Lemma main_runs_witness :
  (exists rep,
     main Py.int two_segments one_word
     = Ok (map (with_root_of [((1, 1, 1)%Z, Some [ra; dash; hah; dash; meem])])
               one_word, rep)
     /\ (1 + 0)%Z = extracted rep)
  /\ main Py.int
       (lit "9223372036854775808:1:1:1" ++ [tab] ++ lit "x" ++ [tab]
          ++ lit "N" ++ [tab] ++ lit "ROOT:" ++ [ra; hah; meem])
       one_word
     = Raise OverflowError.
Proof.
  split.
  - destruct (main_runs Py.int two_segments one_word) as (_ & _ & _ & H).
    destruct (H ltac:(discriminate) _ _ 1%Z 0%Z eq_refl eq_refl)
      as (rep & H1 & _ & _ & _ & H2 & _).
    exists rep. split; [exact H1 | exact H2].
  - destruct (main_runs Py.int
                (lit "9223372036854775808:1:1:1" ++ [tab] ++ lit "x" ++ [tab]
                   ++ lit "N" ++ [tab] ++ lit "ROOT:" ++ [ra; hah; meem])
                one_word) as (_ & _ & H & _).
    apply (H ltac:(discriminate) _ OverflowError eq_refl). reflexivity.
Defined.

End ImportRootsRuns.

(** ** populate_etymology.py *)

Section PopulateEtymologyFacts.
Import Py Db PopulateEtymology.

(** C1, at the empty table.  [show_stats] does not return percentages of
    0 there: the first division has the row count 0 as its divisor and
    raises ZeroDivisionError. *)
Theorem show_stats_empty_table :
  show_stats [] = Raise ZeroDivisionError
  /\ truediv (100 * 0) 0 = Raise ZeroDivisionError.
Proof. split; reflexivity. Qed.

(** C6, as it is stated, fails when the first prompted word has the
    arabic_text of the second under another translation: the answer to
    the second word is written into the rows of the first one too. *)
Lemma first_word_updated_too :
  List.length (select_words shared_text) = 3%nat
  /\ interactive_mode skip_root_quit shared_text
     = Ok [set_etymology (Some r_h_m) (word_row 1 rhm (lit "mercy"));
           set_etymology (Some r_h_m) (word_row 2 rhm (lit "womb"));
           word_row 3 elm (lit "knowledge")]
  /\ ~ (exists db', interactive_mode skip_root_quit shared_text = Ok db'
                    /\ nth_error db' 0 = nth_error shared_text 0).
Proof.
  split; [reflexivity|]. split; [reflexivity|].
  intros (db' & H & H0). vm_compute in H. injection H as <-.
  vm_compute in H0. discriminate.
Qed.

(** C6, as the code has it.  With at least three words to prompt and the
    answers skip, ra-hah-meem, quit, the session ends at the third word
    and commits: the table of the file is the old one with ra-hah-meem
    as the etymology of every row whose arabic_text is that of the
    second word, whichever word the row belongs to, and every other row
    as it was. *)
Theorem interactive_skip_root_quit (db : table) (w1 w2 w3 : word)
    (rest : list word) :
  select_words db = w1 :: w2 :: w3 :: rest ->
  interactive_mode skip_root_quit db
  = Ok (map (fun r => if sql_eq (arabic_text r) (fst (fst w2))
                      then set_etymology (Some r_h_m) r else r) db).
Proof.
  intros H. unfold interactive_mode. cbn [connect pending]. rewrite H.
  destruct w1 as [[a1 t1] l1], w2 as [[a2 t2] l2], w3 as [[a3 t3] l3].
  reflexivity.
Qed.

Lemma interactive_skip_root_quit_witness :
  interactive_mode skip_root_quit shared_text
  = Ok (map (fun r => if sql_eq (arabic_text r) (Some rhm)
                      then set_etymology (Some r_h_m) r else r) shared_text).
Proof.
  apply (interactive_skip_root_quit shared_text
           (Some rhm, Some (lit "mercy"), None)
           (Some rhm, Some (lit "womb"), None)
           (Some elm, Some (lit "knowledge"), None) []).
  reflexivity.
Defined.

(** C10. The answer to a prompt is stripped before anything else: the
    loop does the same on the answers and on the stripped answers; an
    answer of white space only moves to the next word without a write;
    an answer whose stripped and lowered text is quit ends the loop, and
    one whose stripped and lowered text is skip moves to the next word
    without a write. *)
Theorem answers_are_stripped :
  (forall words inputs conn,
     prompt_loop words (map strip inputs) conn = prompt_loop words inputs conn)
  /\ (forall w words answer inputs conn,
        forallb isspace answer = true ->
        prompt_loop (w :: words) (answer :: inputs) conn
        = prompt_loop words inputs conn)
  /\ (forall w words answer inputs conn,
        lower (strip answer) = lit "quit" ->
        prompt_loop (w :: words) (answer :: inputs) conn = Ok conn)
  /\ (forall w words answer inputs conn,
        lower (strip answer) = lit "skip" ->
        prompt_loop (w :: words) (answer :: inputs) conn
        = prompt_loop words inputs conn).
Proof.
  repeat split.
  - induction words as [|[[a t] l] words IH]; intros inputs conn;
      [reflexivity|].
    destruct inputs as [|answer inputs]; [reflexivity|].
    cbn [map prompt_loop]. rewrite strip_strip, !IH. reflexivity.
  - intros [[a t] l] words answer inputs conn H.
    cbn [prompt_loop]. rewrite (strip_spaces _ H). reflexivity.
  - intros [[a t] l] words answer inputs conn H.
    cbn [prompt_loop]. rewrite H. reflexivity.
  - intros [[a t] l] words answer inputs conn H.
    cbn [prompt_loop]. rewrite H. reflexivity.
Qed.

Lemma answers_are_stripped_witness :
  prompt_loop [(Some rhm, None, None)] [lit "  QuIt "] (connect shared_text)
  = Ok (connect shared_text)
  /\ prompt_loop [(Some rhm, None, None)] [[32; 9; 0xA0]%N]
       (connect shared_text)
     = prompt_loop [] [] (connect shared_text)
  /\ prompt_loop [(Some rhm, None, None)] [lit " SKIP"] (connect shared_text)
     = prompt_loop [] [] (connect shared_text).
Proof.
  destruct answers_are_stripped as (_ & Hspace & Hquit & Hskip).
  split; [|split].
  - apply Hquit. reflexivity.
  - apply Hspace. reflexivity.
  - apply Hskip. reflexivity.
Defined.

Lemma getitem_get (name : str) (row : csv_row) (v : str) :
  get name row = Some v -> getitem name row = Ok (Some v).
Proof.
  induction row as [|[k x] row IH]; simpl; [discriminate|].
  destruct (str_eqb k name); [intros ->; reflexivity | exact IH].
Qed.

End PopulateEtymologyFacts.

(** ** populate_etymology.py: the bulk modes *)

Section BulkModes.
Import Py Db ImportRoots PopulateEtymology.

Lemma getitem_Ok_get (name : str) (row : csv_row) (v : optstr) :
  getitem name row = Ok v -> get name row = v.
Proof.
  induction row as [|[k x] row IH]; simpl; [discriminate|].
  destruct (str_eqb k name); [intros H; injection H; auto | exact IH].
Qed.

Lemma set_etymology_same (r : word_translation) :
  set_etymology (etymology r) r = r.
Proof. destruct r; reflexivity. Qed.

(** What the statements of the JSON mode make of one row. *)
Lemma json_row (m : mappings) :
  forall r,
    fold_left (fun r e => if by_text (Some (fst e)) r
                          then set_etymology (snd e) r else r) m r
    = set_etymology (last_value m (arabic_text r) (etymology r)) r.
Proof.
  unfold last_value.
  induction m as [|[a v] m IH]; intros r; cbn [fold_left fst snd].
  - symmetry. apply set_etymology_same.
  - rewrite IH. unfold by_text.
    destruct (sql_eq (arabic_text r) (Some a)); reflexivity.
Qed.

Lemma json_step_pending (conn : connection) (n : Z) (e : str * optstr) :
  pending (fst (bound_json_step (conn, n) e))
  = map (fun r => if by_text (Some (fst e)) r
                  then set_etymology (snd e) r else r) (pending conn).
Proof. destruct e; reflexivity. Qed.

Lemma json_step_count (conn : connection) (n : Z) (e : str * optstr) :
  snd (bound_json_step (conn, n) e)
  = (n + Z.of_nat (List.length
                     (filter (by_text (Some (fst e))) (pending conn))))%Z.
Proof. destruct e; reflexivity. Qed.

Lemma filter_by_text_length (a : optstr) (f : word_translation -> word_translation)
    (t : table) :
  (forall r, arabic_text (f r) = arabic_text r) ->
  List.length (filter (by_text a) (map f t))
  = List.length (filter (by_text a) t).
Proof.
  intros Hf. induction t as [|r t IH]; cbn [map filter]; [reflexivity|].
  assert (E : by_text a (f r) = by_text a r)
    by (unfold by_text; rewrite Hf; reflexivity).
  rewrite E. destruct (by_text a r); cbn [List.length]; rewrite IH;
    reflexivity.
Qed.

Lemma fold_json (m : mappings) :
  forall st,
    pending (fst (fold_left bound_json_step m st))
    = map (fun r => fold_left
                      (fun r e => if by_text (Some (fst e)) r
                                  then set_etymology (snd e) r else r) m r)
          (pending (fst st))
    /\ snd (fold_left bound_json_step m st)
       = (snd st + Z.of_nat (list_sum
            (map (fun e => List.length
                    (filter (by_text (Some (fst e))) (pending (fst st)))) m)))%Z.
Proof.
  induction m as [|e m IH]; intros [conn n]; cbn [fold_left].
  - simpl. split; [symmetry; apply map_id | lia].
  - destruct (bound_json_step (conn, n) e) as [conn' n'] eqn:E.
    pose proof (json_step_pending conn n e) as Hp.
    pose proof (json_step_count conn n e) as Hc.
    rewrite E in Hp, Hc. cbn [fst snd] in *.
    destruct (IH (conn', n')) as [IHp IHc]. cbn [fst snd] in *.
    assert (L : map (fun e' => List.length
                         (filter (by_text (Some (fst e'))) (pending conn'))) m
                = map (fun e' => List.length
                         (filter (by_text (Some (fst e'))) (pending conn))) m).
    { apply map_ext. intros e'. rewrite Hp. apply filter_by_text_length.
      intros r. destruct (by_text (Some (fst e)) r); reflexivity. }
    rewrite IHp, IHc, L, Hp, Hc, map_map. split; [reflexivity|].
    unfold list_sum. cbn [map fold_right]. lia.
Qed.

Lemma update_from_json_run (m : mappings) (db : table) :
  bound_json_run m db
  = (map (fun r => set_etymology
                     (last_value m (arabic_text r) (etymology r)) r) db,
     Z.of_nat (list_sum
       (map (fun e => List.length (filter (by_text (Some (fst e))) db)) m))).
Proof.
  unfold bound_json_run.
  destruct (fold_json m (connect db, 0%Z)) as [Hp Hc].
  destruct (fold_left bound_json_step m (connect db, 0%Z)) as [conn n].
  cbn [fst snd connect pending close commit disk] in *.
  rewrite Hp, Hc. f_equal. apply map_ext. intros r. apply json_row.
Qed.

Lemma last_value_fixed (m : mappings) (a : optstr) :
  (forall x y, last_value m a x = last_value m a y)
  \/ (forall x, last_value m a x = x).
Proof.
  unfold last_value.
  induction m as [|[k v] m [IH|IH]]; cbn [fold_left fst snd].
  - right; reflexivity.
  - left. intros x y. apply IH.
  - destruct (sql_eq a (Some k)).
    + left. intros x y. reflexivity.
    + right. exact IH.
Qed.

Lemma bound_json_again (m : mappings) (db : table) :
  bound_json_run m (fst (bound_json_run m db)) = bound_json_run m db.
Proof.
  rewrite !update_from_json_run. cbn [fst]. f_equal.
  - rewrite map_map. apply map_ext. intros r.
    change (set_etymology (last_value m (arabic_text r)
                             (last_value m (arabic_text r) (etymology r))) r
            = set_etymology (last_value m (arabic_text r) (etymology r)) r).
    f_equal. destruct (last_value_fixed m (arabic_text r)) as [H|H];
      [apply H | rewrite !H; reflexivity].
  - f_equal. f_equal. apply map_ext. intros e.
    apply filter_by_text_length. reflexivity.
Qed.

(** The run of the JSON mode is the binding of all the items and then
    the run of the bound statements. *)
Lemma update_from_json_bound (m : mappings) (db : table) :
  update_from_json m db
  = bind (for_each (fun _ item => bind_pair (snd item) (Some (fst item))) m tt)
         (fun _ => Ok (bound_json_run m db)).
Proof.
  unfold update_from_json, bound_json_run.
  change json_step
    with (fun st item => bind (bind_pair (snd item) (Some (fst item)))
                              (fun _ => Ok (bound_json_step st item))).
  rewrite for_each_checked.
  destruct (for_each (fun _ item => bind_pair (snd item) (Some (fst item)))
              m tt) as [[]|e]; [|reflexivity].
  cbn [bind]. destruct (fold_left bound_json_step m (connect db, 0%Z)).
  reflexivity.
Qed.

Lemma update_from_json_ok (m : mappings) (db : table) :
  forallb bindable_item m = true ->
  update_from_json m db = Ok (bound_json_run m db).
Proof.
  intros H. rewrite update_from_json_bound.
  rewrite (checks_pass (fun item => bind_pair (snd item) (Some (fst item)))
             m H).
  reflexivity.
Qed.

Lemma bind_pair_raises (x y : optstr) (e : exn) :
  bind_pair x y = Raise e -> e = UnicodeEncodeError.
Proof.
  unfold bind_pair, bind_text.
  destruct x as [s|]; [destruct (encodable s)|]; cbn [bind];
    try (intros H; injection H; auto);
    destruct y as [t|]; try discriminate;
    destruct (encodable t); try discriminate; intros H; injection H; auto.
Qed.

Lemma update_from_json_fails (m : mappings) (db : table) :
  forallb bindable_item m = false ->
  update_from_json m db = Raise UnicodeEncodeError.
Proof.
  intros H. rewrite update_from_json_bound.
  assert (G : for_each (fun _ item => bind_pair (snd item) (Some (fst item)))
                m tt = Raise UnicodeEncodeError).
  { induction m as [|item m IH]; cbn [forallb for_each] in *; [discriminate|].
    unfold bindable_item at 1 in H.
    destruct (bind_pair (snd item) (Some (fst item))) as [[]|e] eqn:B;
      cbn [bind andb] in *; [exact (IH H)|].
    rewrite (bind_pair_raises _ _ _ B). reflexivity. }
  rewrite G. reflexivity.
Qed.

Lemma update_from_json_returns (m : mappings) (db : table) (run : table * Z) :
  update_from_json m db = Ok run ->
  forallb bindable_item m = true /\ run = bound_json_run m db.
Proof.
  intros H. destruct (forallb bindable_item m) eqn:B.
  - rewrite (update_from_json_ok m db B) in H. injection H as <-.
    split; reflexivity.
  - rewrite (update_from_json_fails m db B) in H. discriminate.
Qed.

(** The JSON mode returns exactly when both texts of every item can be
    bound, and UnicodeEncodeError ends it otherwise.  The count that it
    prints is the number of rows named by each item, added up over the
    items; the rows are those of the table before the run, whatever the
    earlier items have written. *)
Theorem json_count (m : mappings) (db : table) :
  (forallb bindable_item m = true ->
   exists db',
     update_from_json m db
     = Ok (db',
           Z.of_nat (list_sum
             (map (fun e => List.length
                     (filter (fun r => sql_eq (arabic_text r) (Some (fst e)))
                             db))
                  m))))
  /\ (forallb bindable_item m = false ->
      update_from_json m db = Raise UnicodeEncodeError).
Proof.
  split; intros B; [|apply update_from_json_fails, B].
  rewrite (update_from_json_ok m db B), update_from_json_run.
  eexists. reflexivity.
Qed.

Lemma json_count_witness :
  (exists db', update_from_json [(rhm, Some r_h_m)] shared_text
               = Ok (db', 2%Z))
  /\ update_from_json [(rhm, Some [0xD800%N])] shared_text
     = Raise UnicodeEncodeError.
Proof.
  split.
  - apply (proj1 (json_count [(rhm, Some r_h_m)] shared_text)). reflexivity.
  - apply (proj2 (json_count [(rhm, Some [0xD800%N])] shared_text)).
    reflexivity.
Defined.

(** The JSON mode can be run again: a second run with the same items,
    on the table that the first run has left, has the outcome of the
    first: the same table and count, or the same exception. *)
Theorem json_again (m : mappings) (db : table) :
  update_from_json m (table_after db (update_from_json m db))
  = update_from_json m db.
Proof.
  destruct (forallb bindable_item m) eqn:B.
  - rewrite !(update_from_json_ok _ _ B). cbn [table_after].
    pose proof (bound_json_again m db) as A.
    destruct (bound_json_run m db) as [db' n]. cbn [fst] in A.
    rewrite A. reflexivity.
  - rewrite !(update_from_json_fails _ _ B). reflexivity.
Qed.

(** An item of the JSON mode whose value is null or the empty text is
    written like any other: the run returns when the name of the item
    can be bound, and in the table that a returning run leaves every
    row with the arabic_text of the item is without an etymology. *)
Theorem json_clears (a : str) (v : optstr) (db : table) :
  truthy v = false ->
  (encodable a = true -> exists run, update_from_json [(a, v)] db = Ok run)
  /\ forall db' n r,
       update_from_json [(a, v)] db = Ok (db', n) ->
       In r db' ->
       sql_eq (arabic_text r) (Some a) = true ->
       has_etymology r = false.
Proof.
  intros Hv. split.
  - intros Ha. eexists. apply update_from_json_ok.
    unfold bindable_item, bind_pair, bind_text. cbn [forallb fst snd].
    destruct v as [[|c v]|]; try discriminate Hv; cbn; rewrite Ha;
      reflexivity.
  - intros db' n r H Hin Ha.
    apply update_from_json_returns in H as [_ H].
    rewrite update_from_json_run in H. injection H as -> _.
    apply in_map_iff in Hin as (r0 & <- & _).
    change (sql_eq (arabic_text r0) (Some a) = true) in Ha.
    unfold has_etymology, last_value. cbn. rewrite Ha. exact Hv.
Qed.

Lemma json_clears_witness :
  has_etymology (set_etymology (Some []) (word_row 1 rhm (lit "mercy")))
  = false.
Proof.
  apply (proj2 (json_clears rhm (Some []) shared_text eq_refl)
           [set_etymology (Some []) (word_row 1 rhm (lit "mercy"));
            set_etymology (Some []) (word_row 2 rhm (lit "womb"));
            word_row 3 elm (lit "knowledge")] 2%Z).
  - reflexivity.
  - left. reflexivity.
  - reflexivity.
Defined.

(** The loop of the CSV mode is the loop of the JSON mode over the
    items of the rows. *)
Lemma for_each_csv (rows : list csv_row) :
  (forall row, In row rows ->
     truthy (get (lit "etymology") row) = true ->
     exists a, getitem (lit "arabic_text") row = Ok (Some a)) ->
  forall st,
    for_each csv_step rows st = for_each json_step (csv_items rows) st.
Proof.
  induction rows as [|row rows IH]; intros H st; [reflexivity|].
  assert (IH' := IH (fun r Hr => H r (or_intror Hr))).
  cbn [for_each]. unfold csv_items. cbn [flat_map].
  fold (csv_items rows). destruct st as [conn n]. unfold csv_step at 1.
  destruct (truthy (get (lit "etymology") row)) eqn:T.
  - destruct (H row (or_introl eq_refl) T) as [a Ha].
    rewrite (getitem_Ok_get _ _ _ Ha).
    destruct (get (lit "etymology") row) as [e|] eqn:G; [|discriminate].
    rewrite (getitem_get _ _ _ G), Ha. cbn [bind app for_each].
    unfold json_step at 1. cbn [fst snd].
    destruct (bind_pair (Some e) (Some a)) as [[]|x]; cbn [bind];
      [|reflexivity].
    rewrite <- IH'. unfold bound_json_step.
    destruct (execute_update (by_text (Some a)) (Some e) conn). reflexivity.
  - cbn [bind app]. apply IH'.
Qed.

Lemma update_from_csv_json (rows : list csv_row) (db : table) :
  (forall row, In row rows ->
     truthy (get (lit "etymology") row) = true ->
     exists a, getitem (lit "arabic_text") row = Ok (Some a)) ->
  update_from_csv rows db = update_from_json (csv_items rows) db.
Proof.
  intros H. unfold update_from_csv, update_from_json.
  rewrite (for_each_csv rows H). reflexivity.
Qed.

(** The CSV mode is the JSON mode on the rows that have an etymology:
    when each of those rows has an arabic_text, the run has the outcome
    of [update_from_json] on their items: the same table and count, or
    the same exception. *)
Theorem csv_as_json (rows : list csv_row) (db : table) :
  (forall row, In row rows ->
     truthy (get (lit "etymology") row) = true ->
     exists a, getitem (lit "arabic_text") row = Ok (Some a)) ->
  update_from_csv rows db = update_from_json (csv_items rows) db.
Proof. apply update_from_csv_json. Qed.

Lemma csv_as_json_witness :
  update_from_csv [csv_full; csv_empty; csv_short] shared_text
  = update_from_json [(rhm, Some r_h_m)] shared_text.
Proof.
  apply (csv_as_json [csv_full; csv_empty; csv_short] shared_text).
  intros row [<-|[<-|[<-|[]]]] H; try discriminate H.
  exists rhm. reflexivity.
Defined.

(** C7. A row of the CSV file whose etymology is empty or absent is
    passed over: the turn of the loop leaves the connection and the
    count as they are, and the run is the run of the file without that
    row.  The rows with an etymology are applied as the JSON mode
    applies items: the run of the file is the run of [update_from_json]
    on the (arabic_text, etymology) items of those rows; it returns
    when their texts can be bound, and it then leaves in every row of
    the table the etymology of the last of those rows of the file that
    has the arabic_text of the row of the table, and prints the number
    of rows of the table that each of those rows of the file names.
    For a file of one row with the etymology [e] and the arabic_text
    [a]: every row of the table whose arabic_text is [a] gets [e], the
    other rows stay, and the count is the number of those rows. *)
Theorem csv_skips_empty_etymology :
  (forall row conn updated,
     truthy (get (lit "etymology") row) = false ->
     csv_step (conn, updated) row = Ok (conn, updated))
  /\ (forall rows1 row rows2 db,
        truthy (get (lit "etymology") row) = false ->
        update_from_csv (rows1 ++ row :: rows2) db
        = update_from_csv (rows1 ++ rows2) db)
  /\ (forall rows db,
        (forall row, In row rows ->
           truthy (get (lit "etymology") row) = true ->
           exists a, getitem (lit "arabic_text") row = Ok (Some a)) ->
        update_from_csv rows db = update_from_json (csv_items rows) db
        /\ (forallb bindable_item (csv_items rows) = true ->
            update_from_csv rows db
            = Ok (map (fun r => set_etymology
                                  (last_value (csv_items rows)
                                     (arabic_text r) (etymology r)) r) db,
                  Z.of_nat (list_sum
                    (map (fun e => List.length
                            (filter (fun r => sql_eq (arabic_text r)
                                                (Some (fst e))) db))
                         (csv_items rows))))))
  /\ (forall row db e a,
        get (lit "etymology") row = Some e -> e <> [] ->
        getitem (lit "arabic_text") row = Ok (Some a) ->
        encodable e = true -> encodable a = true ->
        update_from_csv [row] db
        = Ok (map (fun r => if sql_eq (arabic_text r) (Some a)
                            then set_etymology (Some e) r else r) db,
              Z.of_nat (List.length
                (filter (fun r => sql_eq (arabic_text r) (Some a)) db)))).
Proof.
  assert (Hskip : forall row st,
             truthy (get (lit "etymology") row) = false ->
             csv_step st row = Ok st)
    by (intros row [conn updated] H; unfold csv_step; rewrite H; reflexivity).
  split; [|split; [|split]].
  - intros row conn updated H. apply Hskip, H.
  - intros rows1 row rows2 db H. unfold update_from_csv.
    rewrite !for_each_app.
    destruct (for_each csv_step rows1 (connect db, 0%Z)) as [st|e];
      [|reflexivity].
    cbn [bind for_each]. rewrite (Hskip row st H). reflexivity.
  - intros rows db H. split; [apply update_from_csv_json, H|].
    intros B.
    rewrite (update_from_csv_json rows db H), (update_from_json_ok _ db B).
    rewrite update_from_json_run. reflexivity.
  - intros row db e a He Hne Ha Ee Ea.
    assert (Hi : csv_items [row] = [(a, Some e)]).
    { unfold csv_items. cbn [flat_map].
      rewrite (getitem_Ok_get _ _ _ Ha), He.
      destruct e; [congruence | reflexivity]. }
    rewrite (update_from_csv_json [row] db).
    + rewrite Hi, update_from_json_ok.
      * rewrite update_from_json_run. cbn [map list_sum fold_right fst].
        rewrite Nat.add_0_r. f_equal. f_equal. apply map_ext. intros r.
        unfold last_value. cbn [fold_left fst snd].
        destruct (sql_eq (arabic_text r) (Some a));
          [reflexivity | apply set_etymology_same].
      * unfold bindable_item, bind_pair, bind_text. cbn [forallb fst snd].
        rewrite Ee. cbn [bind]. rewrite Ea. reflexivity.
    + intros row' [<-|[]] _. exists a. exact Ha.
Qed.

Lemma csv_skips_empty_etymology_witness :
  csv_step (connect shared_text, 0%Z) csv_empty = Ok (connect shared_text, 0%Z)
  /\ update_from_csv ([csv_full] ++ csv_empty :: [csv_short]) shared_text
     = update_from_csv ([csv_full] ++ [csv_short]) shared_text
  /\ update_from_csv [csv_full; csv_empty; csv_short] shared_text
     = update_from_json (csv_items [csv_full; csv_empty; csv_short])
         shared_text
  /\ update_from_csv [csv_full] shared_text
     = Ok (map (fun r => if sql_eq (arabic_text r) (Some rhm)
                         then set_etymology (Some r_h_m) r else r)
               shared_text,
           Z.of_nat (List.length
             (filter (fun r => sql_eq (arabic_text r) (Some rhm))
                     shared_text))).
Proof.
  destruct csv_skips_empty_etymology as (Hskip & Hdrop & Hrun & Hone).
  split; [|split; [|split]].
  - apply Hskip. reflexivity.
  - apply Hdrop. reflexivity.
  - refine (proj1 (Hrun [csv_full; csv_empty; csv_short] shared_text _)).
    intros row [<-|[<-|[<-|[]]]] H; try discriminate H.
    exists rhm. reflexivity.
  - apply (Hone csv_full shared_text r_h_m rhm);
      try reflexivity; discriminate.
Defined.

(** A CSV file whose header has no arabic_text column: the run raises
    KeyError at the first row with an etymology, and commits nothing;
    without such a row it returns the table as it was and the count 0. *)
Theorem csv_without_text_column (rows : list csv_row) (db : table) :
  (forall row, In row rows -> getitem (lit "arabic_text") row = Raise KeyError) ->
  update_from_csv rows db
  = if existsb (fun row => truthy (get (lit "etymology") row)) rows
    then Raise KeyError else Ok (db, 0%Z).
Proof.
  intros H. unfold update_from_csv.
  assert (G : for_each csv_step rows (connect db, 0%Z)
              = if existsb (fun row => truthy (get (lit "etymology") row)) rows
                then Raise KeyError else Ok (connect db, 0%Z)).
  { generalize (connect db, 0%Z) as st.
    induction rows as [|row rows IH]; intros [conn n]; [reflexivity|].
    cbn [for_each existsb]. unfold csv_step at 1.
    destruct (truthy (get (lit "etymology") row)) eqn:T.
    - destruct (get (lit "etymology") row) as [e|] eqn:E; [|discriminate].
      rewrite (getitem_get _ _ _ E), (H row (or_introl eq_refl)).
      reflexivity.
    - cbn [bind orb]. apply IH. intros r Hr; apply H; right; exact Hr. }
  rewrite G. destruct (existsb _ rows); reflexivity.
Qed.

Lemma csv_without_text_column_witness :
  update_from_csv [[(lit "etymology", Some r_h_m)]] shared_text
  = Raise KeyError.
Proof.
  apply (csv_without_text_column [[(lit "etymology", Some r_h_m)]] shared_text).
  intros row [<-|[]]. reflexivity.
Defined.

End BulkModes.

(** ** populate_etymology.py: the session and the report *)

Section SessionAndReport.
Import Py Db ImportRoots PopulateEtymology.

Lemma rooted_by (cond : word_translation -> bool) (s : str) (db p : table) :
  s <> [] -> Forall2 kept_or_rooted db p ->
  Forall2 kept_or_rooted db
    (map (fun r => if cond r then set_etymology (Some s) r else r) p).
Proof.
  intros Hs. induction 1 as [|old new db p Hr Hst IH]; simpl; constructor;
    [|exact IH].
  destruct (cond new); [|exact Hr].
  right. exists s. split; [exact Hs|].
  destruct Hr as [->|(s' & _ & ->)]; reflexivity.
Qed.

Lemma for_each_csv_rooted (db : table) (rows : list csv_row) :
  forall st st',
    Forall2 kept_or_rooted db (pending (fst st)) ->
    for_each csv_step rows st = Ok st' ->
    Forall2 kept_or_rooted db (pending (fst st')).
Proof.
  induction rows as [|row rows IH]; intros [conn n] st' Hst H;
    cbn [for_each] in H.
  - injection H as <-. exact Hst.
  - apply bind_Ok in H as (st1 & H1 & H). apply (IH st1 st'); [|exact H].
    unfold csv_step in H1.
    destruct (get (lit "etymology") row) as [[|c e]|] eqn:G;
      cbn [truthy] in H1; try (injection H1 as <-; exact Hst).
    rewrite (getitem_get _ _ _ G) in H1. cbn [bind] in H1.
    destruct (getitem (lit "arabic_text") row) as [a|]; [|discriminate].
    cbn [bind] in H1.
    apply bind_Ok in H1 as ([] & _ & H1). unfold execute_update in H1.
    injection H1 as <-.
    apply rooted_by; [discriminate | exact Hst].
Qed.

(** The CSV mode never takes an etymology away: after a run that
    returns, each row is as it was or has a non-empty etymology, so no
    fewer rows have one than before. *)
Theorem csv_never_clears (rows : list csv_row) (db db' : table) (n : Z) :
  update_from_csv rows db = Ok (db', n) ->
  Forall2 kept_or_rooted db db'
  /\ (List.length (filter has_etymology db)
      <= List.length (filter has_etymology db'))%nat.
Proof.
  intros H. unfold update_from_csv in H.
  apply bind_Ok in H as (st & Hst & H). injection H as <- _.
  assert (F : Forall2 kept_or_rooted db (pending (fst st)))
    by (apply (for_each_csv_rooted db rows (connect db, 0%Z) st);
        [apply Forall2_kept | exact Hst]).
  split; [exact F | apply (rooted_stats _ _ F)].
Qed.

Lemma csv_never_clears_witness :
  Forall2 kept_or_rooted shared_text
    [set_etymology (Some r_h_m) (word_row 1 rhm (lit "mercy"));
     set_etymology (Some r_h_m) (word_row 2 rhm (lit "womb"));
     word_row 3 elm (lit "knowledge")].
Proof.
  apply (csv_never_clears [csv_full; csv_empty] shared_text _ 2%Z).
  reflexivity.
Defined.

Lemma prompt_loop_rooted (db : table) (words : list word) :
  forall inputs conn conn',
    Forall2 kept_or_rooted db (pending conn) ->
    prompt_loop words inputs conn = Ok conn' ->
    Forall2 kept_or_rooted db (pending conn').
Proof.
  induction words as [|[[a t] l] words IH]; intros inputs conn conn' Hc H;
    cbn [prompt_loop] in H.
  - injection H as <-. exact Hc.
  - destruct inputs as [|answer inputs]; [discriminate|].
    destruct (str_eqb (lower (strip answer)) (lit "quit"));
      [injection H as <-; exact Hc|].
    destruct (str_eqb (lower (strip answer)) (lit "skip")
              || negb (truthy (Some (strip answer)))) eqn:S.
    + apply (IH _ _ _ Hc H).
    + assert (Hs : strip answer <> [])
        by (intros E; rewrite E in S; rewrite orb_true_r in S; discriminate).
      destruct (bind_text (Some (strip answer))) as [[]|x];
        cbn [bind] in H; [|discriminate].
      refine (IH _ _ _ _ H).
      exact (rooted_by (by_text a) (strip answer) db (pending conn) Hs Hc).
Qed.

(** A session never takes an etymology away either: when it ends
    without an exception, each row of the table is as it was or has a
    non-empty etymology. *)
Theorem session_never_clears (inputs : list str) (db db' : table) :
  interactive_mode inputs db = Ok db' ->
  Forall2 kept_or_rooted db db'
  /\ (List.length (filter has_etymology db)
      <= List.length (filter has_etymology db'))%nat.
Proof.
  intros H. unfold interactive_mode in H.
  apply bind_Ok in H as (conn' & Hl & H). injection H as <-.
  assert (F : Forall2 kept_or_rooted db (pending conn'))
    by (apply (prompt_loop_rooted db _ inputs (connect db) conn'
                 (Forall2_kept db) Hl)).
  split; [exact F | apply (rooted_stats _ _ F)].
Qed.

Lemma session_never_clears_witness :
  (List.length (filter has_etymology shared_text) <= 2)%nat.
Proof.
  apply (session_never_clears skip_root_quit shared_text
           [set_etymology (Some r_h_m) (word_row 1 rhm (lit "mercy"));
            set_etymology (Some r_h_m) (word_row 2 rhm (lit "womb"));
            word_row 3 elm (lit "knowledge")]).
  reflexivity.
Defined.

Section Distinct.
Variable A : Type.
Variable eqb : A -> A -> bool.
Hypothesis eqb_eq : forall x y, eqb x y = true <-> x = y.

Lemma distinct_In (l : list A) (x : A) : In x (distinct eqb l) <-> In x l.
Proof.
  induction l as [|y l IH]; simpl; [tauto|].
  rewrite filter_In, IH. split.
  - intros [E|[H _]]; [left; exact E | right; exact H].
  - intros [E|H]; [left; exact E|].
    destruct (eqb y x) eqn:E; [left; apply eqb_eq, E | right; split; auto].
Qed.

Lemma distinct_NoDup (l : list A) : NoDup (distinct eqb l).
Proof.
  induction l as [|y l IH]; simpl; constructor.
  - intros H. apply filter_In in H as [_ H].
    rewrite (proj2 (eqb_eq y y) eq_refl) in H. discriminate.
  - apply NoDup_filter, IH.
Qed.

Lemma distinct_length (l : list A) :
  (List.length (distinct eqb l) <= List.length l)%nat.
Proof.
  induction l as [|y l IH]; simpl; [lia|].
  pose proof (filter_length_le (fun z => negb (eqb y z)) (distinct eqb l)).
  lia.
Qed.

Lemma distinct_incl_length (l l' : list A) :
  incl l l' ->
  (List.length (distinct eqb l) <= List.length (distinct eqb l'))%nat.
Proof.
  intros H. apply NoDup_incl_length; [apply distinct_NoDup|].
  intros x Hx. apply (proj2 (distinct_In l' x)), H, (proj1 (distinct_In l x)), Hx.
Qed.

End Distinct.

Lemma optstr_eqb_eq (x y : optstr) : optstr_eqb x y = true <-> x = y.
Proof.
  destruct x as [s|], y as [t|]; simpl;
    try (split; [discriminate | congruence]); [|tauto].
  rewrite str_eqb_eq. split; [intros ->; reflexivity | congruence].
Qed.

Lemma word_eqb_eq (w w' : word) : word_eqb w w' = true <-> w = w'.
Proof.
  destruct w as [[a t] l], w' as [[a' t'] l']; simpl.
  rewrite !andb_true_iff, !optstr_eqb_eq.
  split; [intros [[-> ->] ->]; reflexivity | intros H; injection H; auto].
Qed.

Lemma firstn_incl {A} (n : nat) (l : list A) : incl (firstn n l) l.
Proof.
  intros x H. rewrite <- (firstn_skipn n l). apply in_or_app. left. exact H.
Qed.

(** The words of a session: at most 100, no word twice, and each one
    the arabic_text, translation and transliteration of a row that has
    no etymology. *)
Theorem prompted_words (db : table) :
  (List.length (select_words db) <= 100)%nat
  /\ NoDup (select_words db)
  /\ forall w, In w (select_words db) ->
       exists r, In r db /\ has_etymology r = false
                 /\ w = (arabic_text r, translation r, transliteration r).
Proof.
  unfold select_words. split; [apply firstn_le_length|]. split.
  - match goal with |- NoDup (firstn 100 ?l) =>
      pose proof (distinct_NoDup _ _ word_eqb_eq
                    (map (fun r => (arabic_text r, translation r,
                                    transliteration r))
                         (filter missing_etymology db))) as H;
      rewrite <- (firstn_skipn 100 l) in H
    end.
    apply NoDup_app_remove_r in H. exact H.
  - intros w H. apply firstn_incl in H.
    apply (proj1 (distinct_In _ _ word_eqb_eq _ _)) in H.
    apply in_map_iff in H as (r & <- & H). apply filter_In in H as [Hin Hm].
    exists r. repeat split; [exact Hin|].
    unfold missing_etymology in Hm. destruct (has_etymology r);
      [discriminate | reflexivity].
Qed.

Lemma prompted_words_witness :
  exists r, In r shared_text /\ has_etymology r = false
            /\ (Some rhm, Some (lit "womb"), None)
               = (arabic_text r, translation r, transliteration r).
Proof.
  apply (proj2 (proj2 (prompted_words shared_text))).
  right. left. reflexivity.
Defined.

Lemma select_words_nil (db : table) :
  select_words db = [] <-> forallb has_etymology db = true.
Proof.
  unfold select_words, missing_etymology.
  induction db as [|r db IH]; simpl; [tauto|].
  destruct (has_etymology r); simpl; [exact IH|].
  split; discriminate.
Qed.

(** A session without any input line: when every row has an etymology
    nothing is asked and the table stays as it is; otherwise the first
    prompt raises EOFError and nothing is committed. *)
Theorem session_without_input (db : table) :
  interactive_mode [] db
  = if forallb has_etymology db then Ok db else Raise EOFError.
Proof.
  unfold interactive_mode. cbn [connect pending].
  pose proof (select_words_nil db) as H.
  destruct (select_words db) as [|[[a t] l] words].
  - rewrite (proj1 H eq_refl). reflexivity.
  - destruct (forallb has_etymology db); [|reflexivity].
    destruct H as [_ H]. discriminate (H eq_refl).
Qed.

Lemma percent_bounds (w t : Z) :
  (0 <= w <= t)%Z -> (0 < t)%Z ->
  (0 <= inject_Z (100 * w) / inject_Z t)%Q
  /\ (inject_Z (100 * w) / inject_Z t <= 100)%Q.
Proof.
  intros Hw Ht.
  assert (Hq : (0 < inject_Z t)%Q)
    by (change 0%Q with (inject_Z 0); rewrite <- Zlt_Qlt; exact Ht).
  split.
  - apply Qle_shift_div_l; [exact Hq|].
    rewrite Qmult_0_l. change 0%Q with (inject_Z 0).
    rewrite <- Zle_Qle. lia.
  - apply Qle_shift_div_r; [exact Hq|].
    change 100%Q with (inject_Z 100).
    rewrite <- inject_Z_mult, <- Zle_Qle. lia.
Qed.

Lemma count_distinct_text_zero (t : table) :
  count_distinct_text t = 0%Z <-> existsb has_text t = false.
Proof.
  unfold count_distinct_text, has_text.
  induction t as [|r t IH]; simpl; [tauto|].
  destruct (arabic_text r); simpl; [split; [lia | discriminate] | exact IH].
Qed.

Lemma texts_filter_incl (f : word_translation -> bool) (t : table) :
  incl (filter (fun a : optstr => match a with Some _ => true | None => false end)
          (map arabic_text (filter f t)))
       (filter (fun a : optstr => match a with Some _ => true | None => false end)
          (map arabic_text t)).
Proof.
  intros x H. apply filter_In in H as [H Hx]. apply filter_In. split; [|exact Hx].
  apply in_map_iff in H as (r & <- & H). apply filter_In in H as [H _].
  apply in_map, H.
Qed.

(** [show_stats] returns exactly when some row has an arabic_text; on a
    table without rows, or with NULL in that column of every row, one of
    its two divisions raises ZeroDivisionError.  When it returns, the
    counts of the report are ordered as they should be and both
    percentages lie between 0 and 100. *)
Theorem show_stats_returns (db : table) :
  (existsb has_text db = false -> show_stats db = Raise ZeroDivisionError)
  /\ (existsb has_text db = true ->
      exists s,
        show_stats db = Ok s
        /\ total s = Z.of_nat (List.length db)
        /\ (0 <= with_etymology s <= total s)%Z
        /\ (0 <= unique_with_etymology s <= unique_words s)%Z
        /\ (0 < unique_words s <= total s)%Z
        /\ (0 <= entries_percent s)%Q /\ (entries_percent s <= 100)%Q
        /\ (0 <= unique_percent s)%Q /\ (unique_percent s <= 100)%Q).
Proof.
  pose proof (count_distinct_text_zero db) as Hz.
  assert (Hu : (0 <= count_distinct_text (filter has_etymology db)
                <= count_distinct_text db)%Z).
  { unfold count_distinct_text. split; [lia|]. apply inj_le.
    apply (distinct_incl_length _ _ optstr_eqb_eq), texts_filter_incl. }
  assert (Hw : (List.length (filter has_etymology db) <= List.length db)%nat)
    by apply filter_length_le.
  assert (Ht : (count_distinct_text db <= Z.of_nat (List.length db))%Z).
  { unfold count_distinct_text. apply inj_le.
    etransitivity; [apply distinct_length|].
    etransitivity; [apply filter_length_le|]. rewrite length_map. lia. }
  split; intros H; unfold show_stats, truediv.
  - destruct (Z.eqb_spec (Z.of_nat (List.length db)) 0); [reflexivity|].
    cbn [bind]. rewrite (proj2 Hz H). reflexivity.
  - assert (Hpos : (0 < count_distinct_text db)%Z).
    { destruct (Z.eq_dec (count_distinct_text db) 0) as [E|E].
      - rewrite (proj1 Hz E) in H. discriminate.
      - unfold count_distinct_text in *. lia. }
    destruct (Z.eqb_spec (Z.of_nat (List.length db)) 0) as [E|_]; [lia|].
    cbn [bind].
    destruct (Z.eqb_spec (count_distinct_text db) 0) as [E|_]; [lia|].
    cbn [bind]. eexists. split; [reflexivity|]. cbn.
    destruct (percent_bounds (Z.of_nat (List.length (filter has_etymology db)))
                (Z.of_nat (List.length db))) as [P1 P2]; [lia | lia|].
    destruct (percent_bounds (count_distinct_text (filter has_etymology db))
                (count_distinct_text db)) as [P3 P4]; [lia | lia|].
    repeat split; try lia; assumption.
Qed.

Lemma show_stats_returns_witness :
  exists s, show_stats shared_text = Ok s /\ total s = 3%Z.
Proof.
  destruct (show_stats_returns shared_text) as [_ H].
  destruct (H eq_refl) as (s & Hs & Ht & _).
  exists s. split; [exact Hs | exact Ht].
Defined.

End SessionAndReport.

(** ** populate_root_meanings.py *)

Section PopulateRootMeaningsFacts.
Import PopulateRootMeanings.

Lemma content_filter (r : string) (l : list root_meaning) :
  map content (filter (fun row => negb (String.eqb (root row) r)) l)
  = filter (fun c => negb (has_root r c)) (map content l).
Proof.
  induction l as [|row l IH]; simpl; [reflexivity|].
  destruct (String.eqb (root row) r); simpl; rewrite IH; reflexivity.
Qed.

(** One turn of the loop is an upsert on the contents of the table. *)
Lemma insert_step_content (t : root_meanings) (n : Z) (e : entry) :
  map content (rows (fst (free_step (t, n) e)))
  = upsert (map content (rows t)) e.
Proof.
  destruct e as [[[[[r|] [p|]] ext] usage] notes]; try reflexivity.
  simpl. rewrite map_app, content_filter. reflexivity.
Qed.

Lemma insert_step_count (t : root_meanings) (n : Z) (e : entry) :
  snd (free_step (t, n) e) = (n + if accepted e then 1 else 0)%Z.
Proof.
  destruct e as [[[[[r|] [p|]] ext] usage] notes]; simpl;
    try reflexivity; symmetry; apply Z.add_0_r.
Qed.

Lemma fold_insert_content (es : list entry) :
  forall st,
    map content (rows (fst (fold_left free_step es st)))
    = fold_left upsert es (map content (rows (fst st))).
Proof.
  induction es as [|e es IH]; intros [t n]; [reflexivity|].
  cbn [fold_left]. rewrite IH.
  destruct (free_step (t, n) e) as [t' n'] eqn:E.
  pose proof (insert_step_content t n e) as H. rewrite E in H.
  cbn [fst] in *. rewrite H. reflexivity.
Qed.

Lemma fold_insert_count (es : list entry) :
  forall st,
    snd (fold_left free_step es st)
    = (snd st + Z.of_nat (List.length (filter accepted es)))%Z.
Proof.
  induction es as [|e es IH]; intros [t n]; cbn [fold_left].
  - simpl. symmetry. apply Z.add_0_r.
  - rewrite IH. destruct (free_step (t, n) e) as [t' n'] eqn:E.
    pose proof (insert_step_count t n e) as H. rewrite E in H.
    cbn [snd] in *. subst n'. cbn [filter].
    destruct (accepted e); cbn [List.length]; lia.
Qed.

Lemma filter_filter {A} (f g : A -> bool) (l : list A) :
  filter f (filter g l) = filter (fun x => g x && f x) l.
Proof.
  induction l as [|x l IH]; simpl; [reflexivity|].
  destruct (g x); simpl; [destruct (f x)|]; rewrite IH; reflexivity.
Qed.

Lemma filter_none {A} (f : A -> bool) (l : list A) :
  (forall x, In x l -> f x = false) -> filter f l = [].
Proof.
  induction l as [|x l IH]; intros H; simpl; [reflexivity|].
  rewrite (H x (or_introl eq_refl)). apply IH.
  intros y Hy; apply H; right; exact Hy.
Qed.

(** The contents after the loop: what the catalog does not replace,
    then what the loop builds from nothing. *)
Lemma fold_upsert_split (es : list entry) :
  forall l,
    fold_left upsert es l
    = filter (fun c => negb (replaced es c)) l ++ fold_left upsert es [].
Proof.
  induction es as [|e es IH]; intros l; cbn [fold_left].
  - simpl. rewrite app_nil_r. induction l; simpl; congruence.
  - rewrite (IH (upsert l e)), (IH (upsert [] e)).
    destruct e as [[[[[r|] [p|]] ext] usage] notes]; cbn [upsert];
      try (simpl; reflexivity).
    cbn [filter app]. rewrite filter_app, filter_filter, <- app_assoc.
    f_equal. apply filter_ext. intros c. simpl.
    destruct (has_root r c); reflexivity.
Qed.

Lemma fold_upsert_in (es : list entry) :
  forall l c, In c (fold_left upsert es l) ->
    In c l \/ replaced es c = true.
Proof.
  induction es as [|e es IH]; intros l c H; cbn [fold_left] in H;
    [left; exact H|].
  destruct (IH _ _ H) as [Hin|Hr].
  - destruct e as [[[[[r|] [p|]] ext] usage] notes]; cbn [upsert] in Hin;
      try (left; exact Hin).
    apply in_app_or in Hin as [Hin|[<-|[]]].
    + left. apply filter_In in Hin. tauto.
    + right. simpl. rewrite String.eqb_refl. reflexivity.
  - right. simpl. rewrite Hr. apply orb_true_r.
Qed.

Lemma fold_upsert_twice (es : list entry) (l : list entry) :
  fold_left upsert es (fold_left upsert es l) = fold_left upsert es l.
Proof.
  rewrite (fold_upsert_split es (fold_left upsert es l)).
  rewrite (fold_upsert_split es l) at 1.
  rewrite filter_app, filter_filter.
  rewrite (filter_none _ (fold_left upsert es [])).
  - rewrite app_nil_r, (fold_upsert_split es l). f_equal.
    apply filter_ext. intros c. destruct (replaced es c); reflexivity.
  - intros c Hc. destruct (fold_upsert_in es [] c Hc) as [[] | ->].
    reflexivity.
Qed.

End PopulateRootMeaningsFacts.

(** ** populate_root_meanings.py: the table after a run *)

Section SeederRuns.
Import PopulateRootMeanings.

Lemma populate_contents (catalog : list entry) (db : database) :
  contents (fst (free_populate catalog db))
  = fold_left upsert catalog (contents db).
Proof.
  unfold free_populate, contents.
  pose proof (fold_insert_content catalog (create_table db, 0%Z)) as H.
  destruct (fold_left free_step catalog (create_table db, 0%Z)) as [t n].
  exact H.
Qed.

Lemma populate_rows (catalog : list entry) (db : database) :
  rows (create_table (fst (free_populate catalog db)))
  = rows (fst (fold_left free_step catalog (create_table db, 0%Z))).
Proof.
  unfold free_populate.
  destruct (fold_left free_step catalog (create_table db, 0%Z)) as [t n].
  reflexivity.
Qed.

Lemma free_inserted_count (catalog : list entry) (db : database) :
  snd (free_populate catalog db)
  = Z.of_nat (List.length (filter accepted catalog))
  /\ (forall e1 e2 bad,
        accepted bad = false ->
        fst (free_populate (e1 ++ bad :: e2) db) = fst (free_populate (e1 ++ e2) db)).
Proof.
  split.
  - unfold free_populate.
    pose proof (fold_insert_count catalog (create_table db, 0%Z)) as H.
    destruct (fold_left free_step catalog (create_table db, 0%Z)) as [t n].
    exact H.
  - intros e1 e2 bad Hb. unfold free_populate. rewrite !fold_left_app.
    cbn [fold_left].
    destruct (fold_left free_step e1 (create_table db, 0%Z)) as [t n].
    assert (E : free_step (t, n) bad = (t, n))
      by (destruct bad as [[[[[r|] [p|]] ext] usage] notes];
          try discriminate Hb; reflexivity).
    rewrite E. reflexivity.
Qed.

Lemma upsert_keeps (l : list entry) (e c : entry) :
  In c l -> replaced [e] c = false -> In c (upsert l e).
Proof.
  intros Hc Hr. destruct e as [[[[[r|] [p|]] ext] usage] notes];
    cbn [upsert]; try exact Hc.
  apply in_or_app. left. apply filter_In. split; [exact Hc|].
  simpl in Hr. rewrite orb_false_r in Hr. rewrite Hr. reflexivity.
Qed.

Lemma fold_upsert_keeps (es : list entry) :
  forall l c, In c l -> replaced es c = false ->
    In c (fold_left upsert es l).
Proof.
  induction es as [|e es IH]; intros l c Hc Hr; [exact Hc|].
  cbn [fold_left]. simpl in Hr. apply orb_false_iff in Hr as [He Hes].
  apply IH; [|exact Hes].
  apply upsert_keeps; [exact Hc|]. simpl. rewrite He. reflexivity.
Qed.

Lemma free_catalog_entry_stored (e1 e2 : list entry) (e : entry) (db : database) :
  accepted e = true ->
  replaced e2 e = false ->
  In e (contents (fst (free_populate (e1 ++ e :: e2) db))).
Proof.
  intros Ha Hr. rewrite populate_contents, fold_left_app. cbn [fold_left].
  apply fold_upsert_keeps; [|exact Hr].
  destruct e as [[[[[r|] [p|]] ext] usage] notes]; try discriminate Ha.
  cbn [upsert]. apply in_or_app. right. left. reflexivity.
Qed.

Lemma insert_step_keeps_row (t : root_meanings) (n : Z) (e : entry)
    (row : root_meaning) :
  In row (rows t) -> replaced [e] (content row) = false ->
  In row (rows (fst (free_step (t, n) e))).
Proof.
  intros Hin Hr. destruct e as [[[[[r|] [p|]] ext] usage] notes];
    try exact Hin.
  simpl. apply in_or_app. left. apply filter_In. split; [exact Hin|].
  simpl in Hr. rewrite orb_false_r in Hr. rewrite Hr. reflexivity.
Qed.

Lemma free_other_rows_kept (catalog : list entry) (db : database)
    (row : root_meaning) :
  In row (rows (create_table db)) ->
  replaced catalog (content row) = false ->
  In row (rows (create_table (fst (free_populate catalog db)))).
Proof.
  rewrite populate_rows. generalize (create_table db) 0%Z.
  induction catalog as [|e es IH]; intros t n Hin Hr; [exact Hin|].
  cbn [fold_left]. simpl in Hr. apply orb_false_iff in Hr as [He Hes].
  destruct (free_step (t, n) e) as [t' n'] eqn:E.
  apply IH; [|exact Hes].
  pose proof (insert_step_keeps_row t n e row Hin) as K.
  rewrite E in K. apply K. simpl. rewrite He. reflexivity.
Qed.

(** Dropping rows keeps a key of the rows unique. *)
Lemma unique_after_filter {Row Key : Type} (key : Row -> Key)
    (keep : Row -> bool) (xs : list Row) (U : NoDup (map key xs)) :
  NoDup (map key (filter keep xs)).
Proof.
  revert U. induction xs as [|x xs IH]; simpl; intros U; [constructor|].
  apply NoDup_cons_iff in U as [Hx Hl].
  destruct (keep x); simpl; [|exact (IH Hl)].
  constructor; [|exact (IH Hl)].
  intros Hin. apply Hx. apply in_map_iff in Hin as (y & Hy & Hin).
  apply in_map_iff. exists y. split; [exact Hy|].
  apply filter_In in Hin. tauto.
Qed.

Lemma insert_step_unique (t : root_meanings) (n : Z) (e : entry) :
  NoDup (map root (rows t)) ->
  NoDup (map root (rows (fst (free_step (t, n) e)))).
Proof.
  intros H. destruct e as [[[[[r|] [p|]] ext] usage] notes]; try exact H.
  simpl. rewrite map_app. apply NoDup_app.
  - apply unique_after_filter, H.
  - repeat constructor. intros [].
  - intros x Hx [<-|[]]. apply in_map_iff in Hx as (row & Hrow & Hin).
    apply filter_In in Hin as [_ Hne]. simpl in Hrow.
    rewrite Hrow, String.eqb_refl in Hne. discriminate.
Qed.

Lemma free_roots_stay_unique (catalog : list entry) (db : database) :
  NoDup (map root (rows (create_table db))) ->
  NoDup (map root (rows (create_table (fst (free_populate catalog db))))).
Proof.
  rewrite populate_rows. generalize (create_table db) 0%Z.
  induction catalog as [|e es IH]; intros t n H; [exact H|].
  cbn [fold_left]. destruct (free_step (t, n) e) as [t' n'] eqn:E.
  apply IH. pose proof (insert_step_unique t n e H) as U.
  rewrite E in U. exact U.
Qed.

Lemma max_id_ge (l : list root_meaning) (row : root_meaning) :
  In row l -> (id row <= max_id l)%Z.
Proof.
  induction l as [|x l IH]; simpl; [intros []|].
  intros [->|H]; [lia|]. specialize (IH H). lia.
Qed.

Lemma replaced_app (l l' : list entry) (c : entry) :
  replaced (l ++ l') c = replaced l c || replaced l' c.
Proof. unfold replaced. apply existsb_app. Qed.

(** The rows after one turn of the loop. *)
Lemma insert_step_rows (t : root_meanings) (n : Z) (e : entry)
    (row : root_meaning) :
  In row (rows (fst (free_step (t, n) e))) ->
  (In row (rows t) /\ replaced [e] (content row) = false)
  \/ (high_id t < id row)%Z.
Proof.
  destruct e as [[[[[r|] [p|]] ext] usage] notes]; simpl;
    try (intros H; left; split; [exact H | reflexivity]).
  intros H. apply in_app_or in H as [H|[<-|[]]].
  - apply filter_In in H as [H Hne]. left. split; [exact H|].
    rewrite orb_false_r. destruct (String.eqb (root row) r);
      [discriminate | reflexivity].
  - right. cbn [id]. unfold high_id. lia.
Qed.

Lemma insert_step_high (t : root_meanings) (n : Z) (e : entry) :
  (high_id t <= high_id (fst (free_step (t, n) e)))%Z.
Proof.
  destruct e as [[[[[r|] [p|]] ext] usage] notes]; simpl; try lia.
  unfold high_id. cbn [seq rows]. lia.
Qed.

(** The state of the loop: the limit has not gone down, and each row
    is one that was there and that the entries so far have not
    replaced, or has an id above the limit. *)
Lemma fold_insert_ids (t0 : root_meanings) (es : list entry) :
  forall done t n,
    (high_id t0 <= high_id t)%Z ->
    (forall row, In row (rows t) ->
       (In row (rows t0) /\ replaced done (content row) = false)
       \/ (high_id t0 < id row)%Z) ->
    forall row,
      In row (rows (fst (fold_left free_step es (t, n)))) ->
      (In row (rows t0) /\ replaced (done ++ es) (content row) = false)
      \/ (high_id t0 < id row)%Z.
Proof.
  induction es as [|e es IH]; intros done t n Hb Hrows row Hin.
  - rewrite app_nil_r. apply Hrows, Hin.
  - cbn [fold_left] in Hin.
    replace (done ++ e :: es) with ((done ++ [e]) ++ es)
      by (rewrite <- app_assoc; reflexivity).
    pose proof (insert_step_high t n e) as Hh.
    pose proof (insert_step_rows t n e) as Hr.
    destruct (free_step (t, n) e) as [t' n']. cbn [fst] in Hh, Hr.
    apply (IH (done ++ [e]) t' n'); [lia | | exact Hin].
    intros row' Hin'. destruct (Hr row' Hin') as [[Ht He]|Hf]; [|right; lia].
    destruct (Hrows row' Ht) as [[Ho Hd]|Hf]; [|right; exact Hf].
    left. split; [exact Ho|]. rewrite replaced_app, Hd, He. reflexivity.
Qed.

Lemma free_replaced_rows_renumbered (catalog : list entry) (db : database)
    (row : root_meaning) :
  In row (rows (create_table (fst (free_populate catalog db)))) ->
  replaced catalog (content row) = true ->
  (high_id (create_table db) < id row)%Z
  /\ forall old, In old (rows (create_table db)) -> (id old < id row)%Z.
Proof.
  rewrite populate_rows. intros Hin Hr.
  assert (H : (high_id (create_table db) < id row)%Z).
  { destruct (fold_insert_ids (create_table db) catalog [] (create_table db)
                0%Z (Z.le_refl _)
                (fun r Hr0 => or_introl (conj Hr0 eq_refl)) row Hin)
      as [[_ Hd]|Hf]; [|exact Hf].
    simpl in Hd. rewrite Hd in Hr. discriminate. }
  split; [exact H|].
  intros old Ho. pose proof (max_id_ge _ _ Ho). unfold high_id in H. lia.
Qed.

Lemma max_id_nonneg (l : list root_meaning) : (0 <= max_id l)%Z.
Proof. induction l as [|x l IH]; simpl; lia. Qed.

Lemma max_id_app (l l' : list root_meaning) :
  max_id (l ++ l') = Z.max (max_id l) (max_id l').
Proof.
  pose proof (max_id_nonneg l').
  induction l as [|x l IH]; simpl; [lia|]. rewrite IH. lia.
Qed.

Lemma max_id_filter (keep : root_meaning -> bool) (l : list root_meaning) :
  (max_id (filter keep l) <= max_id l)%Z.
Proof.
  induction l as [|x l IH]; simpl; [lia|].
  destruct (keep x); simpl; lia.
Qed.

(** A turn of the loop uses at most one id. *)
Lemma free_step_high_le (t : root_meanings) (n : Z) (e : entry) :
  (high_id (fst (free_step (t, n) e)) <= high_id t + 1)%Z.
Proof.
  destruct e as [[[[[r|] [p|]] ext] usage] notes];
    cbn [free_step insert_with_id fst]; try lia.
  unfold high_id at 1. cbn [seq rows]. rewrite max_id_app.
  pose proof (max_id_filter (fun row => negb (String.eqb (root row) r))
                (rows t)) as F.
  assert (G : (max_id (rows t) <= high_id t)%Z) by (unfold high_id; lia).
  pose proof (max_id_nonneg (rows t)) as P.
  cbn [max_id fold_right id]. lia.
Qed.

Lemma fold_free_high (es : list entry) :
  forall t n,
    (high_id (fst (fold_left free_step es (t, n)))
     <= high_id t + Z.of_nat (List.length es))%Z.
Proof.
  induction es as [|e es IH]; intros t n; cbn [fold_left List.length];
    [simpl; lia|].
  pose proof (free_step_high_le t n e) as H.
  destruct (free_step (t, n) e) as [t' n']. cbn [fst] in H.
  specialize (IH t' n'). lia.
Qed.

(** While the table has an id to give, the turn of the loop is the one
    of a table with ids left; a table that is full is not changed. *)
Lemma insert_step_free (t : root_meanings) (n : Z) (e : entry) :
  (high_id t < max_rowid)%Z -> insert_step (t, n) e = free_step (t, n) e.
Proof.
  intros H. unfold insert_step, free_step, insert_or_replace.
  destruct (Z.leb_spec max_rowid (high_id t)); [lia | reflexivity].
Qed.

Lemma insert_step_cases (t : root_meanings) (n : Z) (e : entry) :
  insert_step (t, n) e = free_step (t, n) e \/ insert_step (t, n) e = (t, n).
Proof.
  unfold insert_step, free_step, insert_or_replace.
  destruct (max_rowid <=? high_id t)%Z; [right | left]; reflexivity.
Qed.

Lemma fold_insert_free (es : list entry) :
  forall t n,
    (high_id t + Z.of_nat (List.length es) <= max_rowid)%Z ->
    fold_left insert_step es (t, n) = fold_left free_step es (t, n).
Proof.
  induction es as [|e es IH]; intros t n H; [reflexivity|].
  cbn [fold_left List.length] in *.
  rewrite insert_step_free by lia.
  pose proof (free_step_high_le t n e) as Hh.
  destruct (free_step (t, n) e) as [t' n']. cbn [fst] in Hh.
  apply IH. lia.
Qed.

Lemma populate_free (catalog : list entry) (db : database) :
  ids_left (List.length catalog) db ->
  populate catalog db = free_populate catalog db.
Proof.
  intros H. unfold populate, free_populate.
  rewrite (fold_insert_free catalog _ _ H). reflexivity.
Qed.

Lemma free_populate_high (catalog : list entry) (db : database) :
  (high_id (create_table (fst (free_populate catalog db)))
   <= high_id (create_table db) + Z.of_nat (List.length catalog))%Z.
Proof.
  unfold free_populate.
  pose proof (fold_free_high catalog (create_table db) 0%Z) as H.
  destruct (fold_left free_step catalog (create_table db, 0%Z)) as [t n].
  exact H.
Qed.

Lemma populate_rows' (catalog : list entry) (db : database) :
  rows (create_table (fst (populate catalog db)))
  = rows (fst (fold_left insert_step catalog (create_table db, 0%Z))).
Proof.
  unfold populate.
  destruct (fold_left insert_step catalog (create_table db, 0%Z)) as [t n].
  reflexivity.
Qed.




(** Insert, then look up: while the table has an id left for each entry
    of the catalog, it holds after the run, for an entry with a root
    and a primary meaning, exactly the five values of that entry,
    provided no later entry has the same root. *)
Theorem catalog_entry_stored (e1 e2 : list entry) (e : entry) (db : database) :
  ids_left (List.length (e1 ++ e :: e2)) db ->
  accepted e = true ->
  replaced e2 e = false ->
  In e (contents (fst (populate (e1 ++ e :: e2) db))).
Proof.
  intros H Ha Hr. rewrite (populate_free _ _ H).
  apply free_catalog_entry_stored; assumption.
Qed.

Lemma catalog_entry_stored_witness :
  In (Some "a"%string, Some "b"%string, None, None, None)
     (contents (fst (populate ([] ++ (Some "a"%string, Some "b"%string,
                                      None, None, None)
                                 :: ROOT_MEANINGS) None))).
Proof.
  apply (catalog_entry_stored [] ROOT_MEANINGS).
  - vm_compute. discriminate.
  - reflexivity.
  - reflexivity.
Defined.

(** A row whose root is not in the catalog is not touched by the run:
    it is in the table afterwards with the id and the values it had. *)
Theorem other_rows_kept (catalog : list entry) (db : database)
    (row : root_meaning) :
  In row (rows (create_table db)) ->
  replaced catalog (content row) = false ->
  In row (rows (create_table (fst (populate catalog db)))).
Proof.
  rewrite populate_rows'. generalize (create_table db) 0%Z.
  induction catalog as [|e es IH]; intros t n Hin Hr; [exact Hin|].
  cbn [fold_left]. simpl in Hr. apply orb_false_iff in Hr as [He Hes].
  destruct (insert_step_cases t n e) as [-> | ->]; [|apply IH; assumption].
  pose proof (insert_step_keeps_row t n e row Hin) as K.
  destruct (free_step (t, n) e) as [t' n'].
  apply IH; [|exact Hes]. apply K. simpl. rewrite He. reflexivity.
Qed.

Lemma other_rows_kept_witness :
  In {| id := 7; root := "x"%string; primary_meaning := "y"%string;
        extended_meaning := None; quran_usage := None; notes := None |}
     (rows (create_table
        (fst (populate ROOT_MEANINGS
           (Some {| rows := [{| id := 7; root := "x"%string;
                                primary_meaning := "y"%string;
                                extended_meaning := None; quran_usage := None;
                                notes := None |}];
                    seq := 7 |}))))).
Proof.
  apply other_rows_kept. - left. reflexivity. - reflexivity.
Defined.

(** The run keeps the roots of the table unique: when no two rows had
    the same root before, no two rows have afterwards. *)
Theorem roots_stay_unique (catalog : list entry) (db : database) :
  NoDup (map root (rows (create_table db))) ->
  NoDup (map root (rows (create_table (fst (populate catalog db))))).
Proof.
  rewrite populate_rows'. generalize (create_table db) 0%Z.
  induction catalog as [|e es IH]; intros t n H; [exact H|].
  cbn [fold_left].
  destruct (insert_step_cases t n e) as [-> | ->]; [|apply IH; exact H].
  pose proof (insert_step_unique t n e H) as U.
  destruct (free_step (t, n) e) as [t' n']. apply IH. exact U.
Qed.

Lemma roots_stay_unique_witness :
  NoDup (map root (rows (create_table (fst (populate_root_meanings None))))).
Proof.
  apply (roots_stay_unique ROOT_MEANINGS None). constructor.
Defined.

(** While the table has an id left for each entry of the catalog, a row
    under a root of the catalog has, after the run, an id that the
    table never had: above every id of a row before the run and above
    its AUTOINCREMENT counter.  A run that replaces a row therefore
    renumbers it. *)
Theorem replaced_rows_renumbered (catalog : list entry) (db : database)
    (row : root_meaning) :
  ids_left (List.length catalog) db ->
  In row (rows (create_table (fst (populate catalog db)))) ->
  replaced catalog (content row) = true ->
  (high_id (create_table db) < id row)%Z
  /\ forall old, In old (rows (create_table db)) -> (id old < id row)%Z.
Proof.
  intros H. rewrite (populate_free _ _ H).
  apply free_replaced_rows_renumbered.
Qed.

Lemma replaced_rows_renumbered_witness :
  (7 < 8)%Z.
Proof.
  apply (replaced_rows_renumbered
           [(Some "a"%string, Some "b"%string, None, None, None)]
           (Some {| rows := [{| id := 7; root := "a"%string;
                                primary_meaning := "old"%string;
                                extended_meaning := None; quran_usage := None;
                                notes := None |}];
                    seq := 7 |})
           {| id := 8; root := "a"%string; primary_meaning := "b"%string;
              extended_meaning := None; quran_usage := None; notes := None |}).
  - vm_compute. discriminate.
  - left. reflexivity.
  - reflexivity.
Defined.

(** What the loop leaves, by origin: a content of the table that the
    catalog does not replace, or an entry of the catalog. *)
Lemma fold_upsert_from (es : list entry) :
  forall l c, In c (fold_left upsert es l) ->
    (In c l /\ replaced es c = false) \/ In c es.
Proof.
  induction es as [|e es IH]; intros l c H; cbn [fold_left] in H.
  - left. split; [exact H | reflexivity].
  - destruct (IH _ _ H) as [[Hin Hr]|Hin]; [|right; right; exact Hin].
    destruct e as [[[[[r|] [p|]] ext] usage] notes]; cbn [upsert] in Hin;
      try (left; split; [exact Hin | exact Hr]).
    apply in_app_or in Hin as [Hin|[<-|[]]]; [|right; left; reflexivity].
    apply filter_In in Hin as [Hin Hne]. left. split; [exact Hin|].
    simpl. rewrite Hr, orb_false_r.
    destruct (has_root r c); [discriminate | reflexivity].
Qed.

(** C8, as it is stated, fails on a table that has given out its last
    id: the insert is refused, the row of the table under a root of
    the catalog is not replaced, and nothing is counted. *)
Lemma full_table_not_replaced :
  populate_root_meanings full_table = (full_table, 0%Z)
  /\ contents (fst (populate_root_meanings full_table))
     = [(Some "ك-ف-ر"%string, Some "an older meaning"%string,
         None, None, None)]
  /\ replaced ROOT_MEANINGS
       (Some "ك-ف-ر"%string, Some "an older meaning"%string, None, None, None)
     = true
  /\ ~ In (Some "ك-ف-ر"%string, Some "an older meaning"%string,
           None, None, None) ROOT_MEANINGS.
Proof.
  split; [reflexivity|]. split; [reflexivity|]. split; [reflexivity|].
  intros H. repeat (destruct H as [H|H]; [discriminate H|]). exact H.
Qed.

(** C8, as the code has it.  While the table has an id left for each
    insert of the two runs, a second run of the seeder over the same
    catalog leaves the table with the rows of the first run, the
    surrogate id apart: the same contents in the same order, and the
    same count is printed.  The insert replaces: after a run, what the
    table holds under a root of the catalog is an entry of the catalog,
    whatever it held under that root before, and every entry with a
    root and a primary meaning that no later entry overrides is there.
    With [ROOT_MEANINGS] on a database without the table, the table
    holds the 20 entries of the catalog after one run and after two. *)
Theorem seeder_twice :
  (forall (catalog : list entry) (db : database),
     ids_left (2 * List.length catalog) db ->
     let once := populate catalog db in
     let twice := populate catalog (fst once) in
     contents (fst twice) = contents (fst once)
     /\ List.length (contents (fst twice)) = List.length (contents (fst once))
     /\ snd twice = snd once
     /\ (forall c, In c (contents (fst once)) ->
                   replaced catalog c = true -> In c catalog)
     /\ (forall e1 e e2,
           catalog = e1 ++ e :: e2 ->
           accepted e = true -> replaced e2 e = false ->
           In e (contents (fst once))))
  /\ contents (fst (populate_root_meanings None)) = ROOT_MEANINGS
  /\ contents (fst (populate_root_meanings
                      (fst (populate_root_meanings None)))) = ROOT_MEANINGS
  /\ List.length ROOT_MEANINGS = 20%nat.
Proof.
  split; [|repeat split; vm_compute; reflexivity].
  intros catalog db H. cbv zeta. unfold ids_left in H.
  assert (H1 : ids_left (List.length catalog) db)
    by (unfold ids_left; lia).
  pose proof (free_populate_high catalog db) as Hh.
  assert (H2 : ids_left (List.length catalog) (fst (free_populate catalog db)))
    by (unfold ids_left; lia).
  rewrite (populate_free _ _ H1), (populate_free _ _ H2).
  assert (E : contents (fst (free_populate catalog
                               (fst (free_populate catalog db))))
              = contents (fst (free_populate catalog db)))
    by (rewrite !populate_contents; apply fold_upsert_twice).
  split; [exact E|]. split; [rewrite E; reflexivity|].
  split; [rewrite !(proj1 (free_inserted_count catalog _)); reflexivity|].
  split.
  - intros c Hc Hr. rewrite populate_contents in Hc.
    destruct (fold_upsert_from _ _ _ Hc) as [[_ Hn]|Hin]; [congruence|].
    exact Hin.
  - intros e1 e e2 -> Ha Hr. apply free_catalog_entry_stored; assumption.
Qed.

Lemma seeder_twice_witness :
  contents (fst (populate ROOT_MEANINGS
                   (fst (populate ROOT_MEANINGS stale_table))))
  = contents (fst (populate ROOT_MEANINGS stale_table))
  /\ In (Some "ك-ف-ر"%string, Some "older"%string, None, None, None)
        (contents stale_table).
Proof.
  assert (H : ids_left (2 * List.length ROOT_MEANINGS) stale_table)
    by (vm_compute; discriminate).
  destruct (proj1 seeder_twice ROOT_MEANINGS stale_table H) as [E _].
  split; [exact E | left; reflexivity].
Defined.

End SeederRuns.
